(** * LinkedIn outreach tool: discovery engine and delivery pipeline

    A shallow embedding of [src/app.py]: the profile finder
    ([search_linkedin_profiles]) and the outreach manager
    ([extract_linkedin_username], [extract_job_title],
    [get_user_provider_id], [send_message], [send_connection_request],
    [process_linkedin_profile] and the batch loop of [main]).

    Conventions of the embedding.
    - A Python [str] is a list of characters ([text]); a character is a code
      point below 256 (Rocq's [ascii]).  Case mapping is Python's on these
      code points; the two letters whose title case lies above 255 are
      singled out by [title_in_text].
    - Python floats that feed the progress bar are exact rationals ([Q]).
    - The search provider, the directory API and the netloc validation of
      [urllib] are parameters: the code only observes what they return or
      raise.
    - Widgets that only display (status placeholder, log text area) are
      kept as events of a trace, so that the order of effects can be stated. *)

From Stdlib Require Import Ascii String List Bool Arith ZArith QArith Qminmax Lia Lqa.
Import ListNotations.

(** ** Python text *)

Module Py.

Definition text := list ascii.

(** A literal of the source. *)
Definition lit (s : string) : text := list_ascii_of_string s.
Arguments lit s%_string : simpl never.

Definition code (c : ascii) : nat := nat_of_ascii c.

Definition chr_eqb (a b : ascii) : bool := Ascii.eqb a b.

Fixpoint text_eqb (a b : text) : bool :=
  match a, b with
  | [], [] => true
  | x :: a', y :: b' => chr_eqb x y && text_eqb a' b'
  | _, _ => false
  end.

(** [x in l] for a list of strings. *)
Fixpoint text_in (x : text) (l : list text) : bool :=
  match l with
  | [] => false
  | y :: l' => text_eqb x y || text_in x l'
  end.

(** [str.isspace] on one character, which is also what [\s] matches in a
    [str] pattern: TAB..CR, FS..US, space, NEL and NBSP below 256. *)
Definition is_space (c : ascii) : bool :=
  let n := code c in
  ((9 <=? n) && (n <=? 13)) || ((28 <=? n) && (n <=? 32))
  || (n =? 133) || (n =? 160).

Definition is_newline (c : ascii) : bool := code c =? 10.

(** [s.startswith(p)] *)
Fixpoint starts_with (p s : text) : bool :=
  match p, s with
  | [], _ => true
  | x :: p', y :: s' => chr_eqb x y && starts_with p' s'
  | _ :: _, [] => false
  end.

(** [p in s] for strings: substring test. *)
Fixpoint occurs (p s : text) : bool :=
  starts_with p s ||
  match s with
  | [] => false
  | _ :: s' => occurs p s'
  end.

(** [c in s] for one character. *)
Definition has_chr (c : ascii) (s : text) : bool := existsb (chr_eqb c) s.

Fixpoint lstrip_with (drop : ascii -> bool) (s : text) : text :=
  match s with
  | [] => []
  | c :: s' => if drop c then lstrip_with drop s' else s
  end.

Definition rstrip_with (drop : ascii -> bool) (s : text) : text :=
  rev (lstrip_with drop (rev s)).

(** [s.strip()] *)
Definition strip (s : text) : text := rstrip_with is_space (lstrip_with is_space s).

(** [s.replace(old, new)] for a non-empty [old]: the occurrences are taken
    left to right and do not overlap.  [skip] counts the characters of a
    matched occurrence that are still to be passed over. *)
Fixpoint replace_from (old new : text) (skip : nat) (s : text) : text :=
  match s with
  | [] => []
  | c :: s' =>
      match skip with
      | S k => replace_from old new k s'
      | O =>
          if starts_with old s
          then new ++ replace_from old new (length old - 1) s'
          else c :: replace_from old new 0 s'
      end
  end.

Definition replace (old new s : text) : text := replace_from old new 0 s.

Definition is_lower (c : ascii) : bool := (97 <=? code c) && (code c <=? 122).
Definition is_upper (c : ascii) : bool := (65 <=? code c) && (code c <=? 90).

Definition lower_chr (c : ascii) : ascii :=
  if is_upper c then ascii_of_nat (code c + 32) else c.

(** [str.lower] on one character: the letters A..Z and, above them, U+00C0
    to U+00DE without the multiplication sign U+00D7. *)
Definition lower_case (c : ascii) : ascii :=
  let n := code c in
  if is_upper c || ((192 <=? n) && (n <=? 222) && negb (n =? 215))
  then ascii_of_nat (n + 32) else c.

(** The title case [str.capitalize] gives the first character: the letters
    a..z and U+00E0 to U+00FE without the division sign U+00F7 move down by
    32, the sharp s U+00DF becomes the two characters [Ss]. *)
Definition title_case (c : ascii) : text :=
  let n := code c in
  if is_lower c || ((224 <=? n) && (n <=? 254) && negb (n =? 247))
  then [ascii_of_nat (n - 32)]
  else if n =? 223 then lit "Ss" else [c].

(** The title case of the micro sign U+00B5 is U+039C and that of U+00FF is
    U+0178: a string that begins with one of the two has a capitalized form
    that [text] cannot hold. *)
Definition title_in_text (s : text) : bool :=
  match s with
  | [] => true
  | c :: _ => negb ((code c =? 181) || (code c =? 255))
  end.

(** [s.capitalize()]: the first character in title case, all the others
    lower-cased.  It is Python's result on every [s] with
    [title_in_text s]. *)
Definition capitalize (s : text) : text :=
  match s with
  | [] => []
  | c :: s' => title_case c ++ map lower_case s'
  end.

(** Truth value of a string: non-empty. *)
Definition truthy_text (s : text) : bool :=
  match s with [] => false | _ :: _ => true end.

End Py.

Import Py.

(** ** The profile pattern of the finder

    [profile_pattern = re.compile(r'(https?://.*?linkedin\.com/in/[^/\s]+)/?(?:\s|$)')]
    and [profile_pattern.findall(url)].  The pattern has one group, so
    [findall] lists the text of group 1 of every match and [matches[0]] is
    group 1 of the leftmost match.  The matcher follows the backtracking
    order of [re]: greedy items try the longest choice first, the lazy
    [.*?] the shortest. *)

Module ProfilePattern.

(** [$] without MULTILINE: the end of the string, or just before a newline
    that ends the string. *)
Definition at_dollar (s : text) : bool :=
  match s with
  | [] => true
  | [c] => is_newline c
  | _ => false
  end.

(** [(?:\s|$)] *)
Definition boundary (s : text) : bool :=
  match s with
  | c :: _ => is_space c || at_dollar s
  | [] => at_dollar s
  end.

(** [/?(?:\s|$)]: the optional slash is tried first. *)
Definition tail_ok (s : text) : bool :=
  match s with
  | c :: r => (chr_eqb c "/"%char && boundary r) || boundary s
  | [] => boundary s
  end.

(** A character of the class [[^/\s]]. *)
Definition seg_chr (c : ascii) : bool := negb (chr_eqb c "/"%char) && negb (is_space c).

(** [[^/\s]+/?(?:\s|$)]: the text matched by the class, longest first. *)
Fixpoint segment (s : text) : option text :=
  match s with
  | [] => None
  | c :: r =>
      if seg_chr c then
        match segment r with
        | Some seg => Some (c :: seg)
        | None => if tail_ok r then Some [c] else None
        end
      else None
  end.

(** [linkedin\.com/in/[^/\s]+/?(?:\s|$)] *)
Definition host_and_segment (s : text) : option text :=
  let host := lit "linkedin.com/in/" in
  if starts_with host s
  then option_map (app host) (segment (skipn (length host) s))
  else None.

(** [.*?linkedin\.com/in/...]: the lazy star tries the rest of the pattern
    before it takes one more character; [.] is any character but a newline. *)
Fixpoint lazy_any (s : text) : option text :=
  match host_and_segment s with
  | Some m => Some m
  | None =>
      match s with
      | [] => None
      | c :: r => if is_newline c then None else option_map (cons c) (lazy_any r)
      end
  end.

(** [://.*?...] *)
Definition after_scheme (s : text) : option text :=
  let sep := lit "://" in
  if starts_with sep s
  then option_map (app sep) (lazy_any (skipn (length sep) s))
  else None.

(** The whole pattern anchored at the start of [s]; the result is group 1. *)
Definition match_here (s : text) : option text :=
  let http := lit "http" in
  if starts_with http s then
    let r := skipn (length http) s in
    let with_s :=
      match r with
      | c :: r' =>
          if chr_eqb c "s"%char
          then option_map (fun m => http ++ c :: m) (after_scheme r')
          else None
      | [] => None
      end in
    match with_s with
    | Some m => Some m
    | None => option_map (app http) (after_scheme r)
    end
  else None.

(** [matches = profile_pattern.findall(url)] followed by [matches[0]]:
    [None] when the list of matches is empty. *)
Fixpoint first_match (s : text) : option text :=
  match match_here s with
  | Some m => Some m
  | None =>
      match s with
      | [] => None
      | _ :: r => first_match r
      end
  end.

End ProfilePattern.

(** ** Username extraction *)

Module Username.

(** [urllib.parse.urlparse(url).path].  [netloc_ok] stands for the checks
    of the library on the network location (brackets of IPv6 literals, NFKC
    normalisation): where it answers [false] the library raises [ValueError],
    here [None]. *)
Section UrlParse.

Variable netloc_ok : text -> bool.

Definition is_alpha (c : ascii) : bool := is_lower c || is_upper c.
Definition is_digit (c : ascii) : bool := (48 <=? code c) && (code c <=? 57).

(** [scheme_chars]: letters, digits and [+-.] *)
Definition scheme_chr (c : ascii) : bool :=
  is_alpha c || is_digit c || chr_eqb c "+"%char || chr_eqb c "-"%char
  || chr_eqb c "."%char.

(** The C0 control characters and the space, stripped on the left. *)
Definition c0_or_space (c : ascii) : bool := code c <=? 32.

(** TAB, CR and LF are removed wherever they stand. *)
Definition unsafe_chr (c : ascii) : bool :=
  (code c =? 9) || (code c =? 10) || (code c =? 13).

(** [s.split(sep, 1)]: the text before and after the first [sep]. *)
Fixpoint split_at (stop : ascii -> bool) (s : text) : text * option text :=
  match s with
  | [] => ([], None)
  | c :: r =>
      if stop c then ([], Some r)
      else let '(a, b) := split_at stop r in (c :: a, b)
  end.

(** The text up to the first character of a set, and the rest from it. *)
Fixpoint break_at (stop : ascii -> bool) (s : text) : text * text :=
  match s with
  | [] => ([], [])
  | c :: r =>
      if stop c then ([], s)
      else let '(a, b) := break_at stop r in (c :: a, b)
  end.

(** The scheme is split off when the text before the first colon is not
    empty, starts with a letter and holds scheme characters only. *)
Definition split_scheme (url : text) : text * text :=
  match split_at (chr_eqb ":"%char) url with
  | (c :: pre, Some rest) =>
      if is_alpha c && forallb scheme_chr (c :: pre)
      then (map lower_chr (c :: pre), rest)
      else ([], url)
  | _ => ([], url)
  end.

(** [_splitparams]: the parameters of the last path segment, after [;]. *)
Fixpoint last_segment_start (s : text) (pos : nat) (last : nat) : nat :=
  match s with
  | [] => last
  | c :: r => last_segment_start r (S pos) (if chr_eqb c "/"%char then pos else last)
  end.

Definition split_params (path : text) : text :=
  let from := last_segment_start path 0 0 in
  firstn from path ++ fst (split_at (chr_eqb ";"%char) (skipn from path)).

Definition uses_params (scheme : text) : bool :=
  text_in scheme
    [[]; lit "ftp"; lit "hdl"; lit "prospero"; lit "http"; lit "imap";
     lit "https"; lit "shttp"; lit "rtsp"; lit "rtspu"; lit "sip"; lit "sips";
     lit "mms"; lit "sftp"; lit "tel"].

(** The path of what is left once scheme and network location are gone:
    fragment, query and parameters are cut off. *)
Definition path_of (scheme rest : text) : text :=
  let rest := fst (split_at (chr_eqb "#"%char) rest) in
  let rest := fst (split_at (chr_eqb "?"%char) rest) in
  if uses_params scheme && has_chr ";"%char rest then split_params rest else rest.

Definition netloc_end (c : ascii) : bool :=
  chr_eqb c "/"%char || chr_eqb c "?"%char || chr_eqb c "#"%char.

Definition urlparse_path (url : text) : option text :=
  let url := lstrip_with c0_or_space url in
  let url := filter (fun c => negb (unsafe_chr c)) url in
  let '(scheme, url) := split_scheme url in
  if starts_with (lit "//") url then
    let '(netloc, rest) := break_at netloc_end (skipn 2 url) in
    if netloc_ok netloc then Some (path_of scheme rest) else None
  else Some (path_of scheme url).

(** [re.search(r'/in/([^/]+)', path)] and [match.group(1)]: the leftmost
    [/in/] that is followed by a character other than [/], and the run of
    such characters after it. *)
Fixpoint in_segment (path : text) : option text :=
  let here :=
    if starts_with (lit "/in/") path then
      match fst (break_at (chr_eqb "/"%char) (skipn 4 path)) with
      | [] => None
      | seg => Some seg
      end
    else None in
  match here with
  | Some seg => Some seg
  | None =>
      match path with
      | [] => None
      | _ :: r => in_segment r
      end
  end.

(** A value handed to the pipeline as a profile URL: a string, or (from an
    uploaded CSV column) some other value, of which only its rendering by
    [str()] matters. *)
Inductive url_input :=
| UrlText (s : text)
| UrlOther (shown : text).

Definition shown (u : url_input) : text :=
  match u with UrlText s => s | UrlOther s => s end.

(** [extract_linkedin_username(url)]: [None] for a value that is empty or
    not a string, when [urlparse] raises, and when the path has no [/in/]
    segment. *)
Definition extract_linkedin_username (url : url_input) : option text :=
  match url with
  | UrlOther _ => None
  | UrlText [] => None
  | UrlText s =>
      match urlparse_path (strip s) with
      | Some path => in_segment path
      | None => None
      end
  end.

End UrlParse.
End Username.

Import ProfilePattern Username.

(** ** The discovery engine: [search_linkedin_profiles] *)

Module Discovery.

(** [list(search(query, num=10, stop=10))]: the result URLs in order, or an
    exception raised by the search package. *)
Inductive search_outcome :=
| SearchReturns (urls : list text)
| SearchRaises (msg : text).

(** The lines appended to the search log. *)
Inductive log_line :=
| LogRunning (i : nat) (query : text)
| LogFound (profile_url : text)
| LogReached (num_results : Z)
| LogQueryError (i : nat) (msg : text)
| LogBroader
| LogBroaderQuery (query : text)
| LogBroaderError (msg : text)
| LogNoProfiles
| LogCompleted (found : nat).

(** What a run does besides returning: the status line, the values given
    to the progress bar, the log, the queries sent out and the pacing
    delays, in the order of the code. *)
Inductive event :=
| StatusInfo (keyword description : text)
| SetProgress (p : Q)
| LogLine (l : log_line)
| RunSearch (query : text)
| Pause.

Definition dquote : ascii := ascii_of_nat 34.

Definition quoted (s : text) : text := dquote :: s ++ [dquote].

(** The three targeted queries. *)
Definition queries (keyword description : text) : list text :=
  [ lit "site:linkedin.com/in " ++ quoted keyword ++ lit " " ++ quoted description;
    lit "inurl:linkedin.com/in " ++ quoted keyword ++ lit " " ++ quoted description;
    lit "site:linkedin.com/in intitle:" ++ quoted keyword ++ lit " " ++ quoted description ].

Definition broader_query (keyword : text) : text :=
  lit "site:linkedin.com/in " ++ quoted keyword.

Definition of_nat (n : nat) : Q := inject_Z (Z.of_nat n).

(** [min(a, b)] of Python on numbers. *)
Definition py_min (a b : Q) : Q := if Qle_bool a b then a else b.

(** [(i) / len(queries) * 0.5] *)
Definition query_progress (i nq : nat) : Q := of_nat i / of_nat nq * (1 # 2).

(** [min(0.5 + (i + (j + 1) / len(search_results)) / len(queries) * 0.5, 0.9)] *)
Definition targeted_progress (i j total nq : nat) : Q :=
  py_min ((1 # 2) + (of_nat i + of_nat (j + 1) / of_nat total) / of_nat nq * (1 # 2))
         (9 # 10).

(** [min(0.9 + (j + 1) / len(search_results) * 0.1, 0.99)] *)
Definition broader_progress (j total : nat) : Q :=
  py_min ((9 # 10) + of_nat (j + 1) / of_nat total * (1 # 10)) (99 # 100).

(** The profile URL a result contributes: group 1 of the first match of the
    pattern, unless the list holds it already. *)
Definition new_profile (url : text) (profile_urls : list text) : option text :=
  match first_match url with
  | Some profile_url => if text_in profile_url profile_urls then None else Some profile_url
  | None => None
  end.

Section Engine.

Variable search : text -> search_outcome.
Variable num_results : Z.

(** [len(profile_urls) >= num_results] *)
Definition reached (profile_urls : list text) : bool :=
  (num_results <=? Z.of_nat (length profile_urls))%Z.

(** The loop over the results of targeted query [i], from result [j] on.
    The flag is [true] when the loop ran into [return profile_urls]. *)
Fixpoint scan_targeted (i nq total j : nat) (urls : list text) (profile_urls : list text)
  : bool * list text * list event :=
  match urls with
  | [] => (false, profile_urls, [])
  | url :: rest =>
      let pace := [SetProgress (targeted_progress i j total nq); Pause] in
      match new_profile url profile_urls with
      | Some profile_url =>
          let profile_urls' := profile_urls ++ [profile_url] in
          if reached profile_urls'
          then (true, profile_urls',
                [LogLine (LogFound profile_url); LogLine (LogReached num_results);
                 SetProgress 1])
          else
            let '(ret, final, ev) := scan_targeted i nq total (S j) rest profile_urls' in
            (ret, final, LogLine (LogFound profile_url) :: pace ++ ev)
      | None =>
          let '(ret, final, ev) := scan_targeted i nq total (S j) rest profile_urls in
          (ret, final, pace ++ ev)
      end
  end.

(** [for i, query in enumerate(queries)], from query [i] on.  A query that
    raises leaves the list as it is and the loop goes on. *)
Fixpoint run_queries (i nq : nat) (qs : list text) (profile_urls : list text)
  : bool * list text * list event :=
  match qs with
  | [] => (false, profile_urls, [])
  | query :: qs' =>
      let head :=
        [LogLine (LogRunning i query); SetProgress (query_progress i nq); RunSearch query] in
      match search query with
      | SearchRaises msg =>
          let '(ret, final, ev) := run_queries (S i) nq qs' profile_urls in
          (ret, final, head ++ LogLine (LogQueryError i msg) :: ev)
      | SearchReturns urls =>
          match scan_targeted i nq (length urls) 0 urls profile_urls with
          | (true, final, ev) => (true, final, head ++ ev)
          | (false, profile_urls', ev) =>
              let '(ret, final, ev') := run_queries (S i) nq qs' profile_urls' in
              (ret, final, head ++ ev ++ ev')
          end
      end
  end.

(** The loop over the results of the broader query; at the cap it breaks. *)
Fixpoint scan_broader (total j : nat) (urls : list text) (profile_urls : list text)
  : list text * list event :=
  match urls with
  | [] => (profile_urls, [])
  | url :: rest =>
      let pace := [SetProgress (broader_progress j total); Pause] in
      match new_profile url profile_urls with
      | Some profile_url =>
          let profile_urls' := profile_urls ++ [profile_url] in
          if reached profile_urls'
          then (profile_urls', [LogLine (LogFound profile_url)])
          else
            let '(final, ev) := scan_broader total (S j) rest profile_urls' in
            (final, LogLine (LogFound profile_url) :: pace ++ ev)
      | None =>
          let '(final, ev) := scan_broader total (S j) rest profile_urls in
          (final, pace ++ ev)
      end
  end.

(** [if len(profile_urls) < num_results: ...] *)
Definition broader_search (keyword : text) (profile_urls : list text)
  : list text * list event :=
  if (Z.of_nat (length profile_urls) <? num_results)%Z then
    let query := broader_query keyword in
    let head := [LogLine LogBroader; LogLine (LogBroaderQuery query); RunSearch query] in
    match search query with
    | SearchRaises msg => (profile_urls, head ++ [LogLine (LogBroaderError msg)])
    | SearchReturns urls =>
        let '(final, ev) := scan_broader (length urls) 0 urls profile_urls in
        (final, head ++ ev)
    end
  else (profile_urls, []).

Definition closing_line (profile_urls : list text) : log_line :=
  match profile_urls with
  | [] => LogNoProfiles
  | _ => LogCompleted (length profile_urls)
  end.

(** [search_linkedin_profiles(keyword, description, num_results)]: the
    returned list and the trace of the run. *)
Definition search_linkedin_profiles (keyword description : text)
  : list text * list event :=
  let qs := queries keyword description in
  let start := [StatusInfo keyword description; SetProgress 0] in
  match run_queries 0 (length qs) qs [] with
  | (true, final, ev) => (final, start ++ ev)
  | (false, profile_urls, ev) =>
      let '(final, ev') := broader_search keyword profile_urls in
      (final, start ++ ev ++ ev' ++ [LogLine (closing_line final); SetProgress 1])
  end.

End Engine.

(** The values the progress bar was given, in order. *)
Fixpoint progress_values (trace : list event) : list Q :=
  match trace with
  | [] => []
  | SetProgress p :: rest => p :: progress_values rest
  | _ :: rest => progress_values rest
  end.

(** The queries sent to the search provider, in order. *)
Fixpoint searches (trace : list event) : list text :=
  match trace with
  | [] => []
  | RunSearch q :: rest => q :: searches rest
  | _ :: rest => searches rest
  end.

(** No query is sent and no pacing delay taken in [trace]. *)
Fixpoint quiet (trace : list event) : bool :=
  match trace with
  | [] => true
  | RunSearch _ :: _ => false
  | Pause :: _ => false
  | LogLine (LogFound _) :: _ => false
  | _ :: rest => quiet rest
  end.

(** [a <= b] for every two neighbours of a list. *)
Fixpoint nondecreasing (l : list Q) : Prop :=
  match l with
  | a :: (b :: _) as rest => a <= b /\ nondecreasing rest
  | _ => True
  end.

(** The trace ends on the log line of the profile that filled the list:
    after it no query is sent, no further result is looked at (each one
    would be followed by a pacing delay) and nothing else is found. *)
Definition capped (final : list text) (trace : list event) : Prop :=
  exists pre p post before,
    trace = pre ++ LogLine (LogFound p) :: post /\ quiet post = true /\
    final = before ++ [p].

(** A value the progress bar accepts. *)
Definition in_unit (p : Q) : Prop := 0 <= p /\ p <= 1.

(** A failing query read as a query without results. *)
Definition skipping (search : text -> search_outcome) (query : text) : search_outcome :=
  match search query with
  | SearchRaises _ => SearchReturns []
  | ok => ok
  end.

End Discovery.

(** ** The directory API as [requests] shows it *)

Module Directory.

(** A value decoded from JSON, as Python holds it. *)
#[warnings="-register-all"] Inductive pyval :=
| PyNone
| PyBool (b : bool)
| PyInt (z : Z)
| PyFloat (q : Q)
| PyStr (s : text)
| PyList (items : list pyval)
| PyDict (entries : list (text * pyval)).

(** The truth value of a value in [if v:] and [not v]. *)
Definition truthy (v : pyval) : bool :=
  match v with
  | PyNone => false
  | PyBool b => b
  | PyInt z => negb (z =? 0)%Z
  | PyFloat q => negb (Qeq_bool q 0)
  | PyStr s => truthy_text s
  | PyList items => match items with [] => false | _ => true end
  | PyDict entries => match entries with [] => false | _ => true end
  end.

(** [d.get(key, default)] on the entries of a dict. *)
Fixpoint dict_get (key : text) (entries : list (text * pyval)) (default : pyval) : pyval :=
  match entries with
  | [] => default
  | (k, v) :: rest => if text_eqb key k then v else dict_get key rest default
  end.

Fixpoint dict_has (key : text) (entries : list (text * pyval)) : bool :=
  match entries with
  | [] => false
  | (k, _) :: rest => text_eqb key k || dict_has key rest
  end.

Definition is_str (s : text) (v : pyval) : bool :=
  match v with PyStr s' => text_eqb s s' | _ => false end.

(** The body of a response under [response.json()].  A body that is no
    JSON makes [requests] (2.27 and later) raise its own [JSONDecodeError],
    which is a [RequestException]. *)
Inductive json_body :=
| JsonValue (data : pyval)
| JsonInvalid (msg : text).

(** A response: [http_error_msg] is the line [raise_for_status] builds from
    status, reason and URL. *)
Record response := {
  status_code : Z;
  response_text : text;
  http_error_msg : text;
  body : json_body
}.

(** [requests.exceptions.RequestException] (with its subclasses): [str(e)]
    and [e.response]. *)
Record request_exception := {
  exc_text : text;
  exc_response : option response
}.

(** What a call of [requests.get] or [requests.post] does: it answers, or
    it raises a [RequestException].  Exceptions of other classes, which
    only the bare [except] of [extract_job_title] would catch, are not
    modelled: what is said below of a run that raises names causes that are
    enough for it, not all there are. *)
Inductive http_outcome :=
| Responds (r : response)
| Fails (e : request_exception).

(** [response.ok], which is also the truth value of a response. *)
Definition response_ok (r : response) : bool :=
  negb ((400 <=? status_code r)%Z && (status_code r <? 600)%Z).

(** [response.raise_for_status()]: the [HTTPError] raised, if any. *)
Definition raise_for_status (r : response) : option request_exception :=
  if response_ok r then None
  else Some {| exc_text := http_error_msg r; exc_response := Some r |}.

(** [hasattr(e, 'response') and e.response] *)
Definition truthy_response (e : request_exception) : option response :=
  match exc_response e with
  | Some r => if response_ok r then Some r else None
  | None => None
  end.

(** [error_msg = str(e)], extended by the response text when
    [e.response] is truthy. *)
Definition error_msg (e : request_exception) : text :=
  match truthy_response e with
  | Some r => exc_text e ++ lit ": " ++ response_text r
  | None => exc_text e
  end.

Record get_request := {
  get_url : text;
  get_api_key : text;
  get_account_id : text
}.

Record chat_request := {
  chat_url : text;
  chat_api_key : text;
  chat_account_id : text;
  chat_text : text;
  chat_attendees_ids : pyval
}.

Record invite_request := {
  invite_url : text;
  invite_api_key : text;
  invite_provider_id : pyval;
  invite_account_id : text;
  invite_message : text
}.

(** The surroundings of a pipeline run: the netloc checks of [urllib] and
    the answer of the directory to each of the four calls the code makes.
    The two GETs go to the same URL and may be answered differently. *)
Record environment := {
  netloc_ok : text -> bool;
  resolver_get : get_request -> http_outcome;
  job_title_get : get_request -> http_outcome;
  chats_post : chat_request -> http_outcome;
  invite_post : invite_request -> http_outcome
}.

Inductive api_call :=
| ResolverGet (r : get_request)
| JobTitleGet (r : get_request)
| ChatsPost (r : chat_request)
| InvitePost (r : invite_request).

(** Exceptions that are not a [RequestException]. *)
Inductive py_exn :=
| AttributeError
| TypeError.

(** A Python call: it returns or it raises. *)
Inductive outcome (A : Type) :=
| Returns (a : A)
| Raises (e : py_exn).
Arguments Returns {A} a.
Arguments Raises {A} e.

Definition bind {A B : Type} (c : outcome A) (k : A -> outcome B) : outcome B :=
  match c with
  | Returns a => k a
  | Raises e => Raises e
  end.

Inductive action_taken := Message | ConnectionRequest.
Inductive final_status := Success | Failed.

(** The result dict of [process_linkedin_profile]. *)
Record outreach_result := {
  url : url_input;
  username : option text;
  job_title : pyval;
  provider_id : pyval;
  action : option action_taken;
  status : option final_status;
  error : option text
}.

(** [if error:] on the second component of the resolver's pair. *)
Definition error_set (err : option text) : bool :=
  match err with
  | Some reason => truthy_text reason
  | None => false
  end.

(** The dict as it is created on entry. *)
Definition fresh_result (linkedin_url : url_input) : outreach_result :=
  {| url := linkedin_url; username := None; job_title := PyNone; provider_id := PyNone;
     action := None; status := None; error := None |}.

(** [result[key] = value], one definition per key. *)
Definition set_username (v : text) (r : outreach_result) : outreach_result :=
  {| url := url r; username := Some v; job_title := job_title r;
     provider_id := provider_id r; action := action r; status := status r;
     error := error r |}.

Definition set_job_title (v : pyval) (r : outreach_result) : outreach_result :=
  {| url := url r; username := username r; job_title := v;
     provider_id := provider_id r; action := action r; status := status r;
     error := error r |}.

Definition set_provider_id (v : pyval) (r : outreach_result) : outreach_result :=
  {| url := url r; username := username r; job_title := job_title r;
     provider_id := v; action := action r; status := status r; error := error r |}.

Definition set_action (v : action_taken) (r : outreach_result) : outreach_result :=
  {| url := url r; username := username r; job_title := job_title r;
     provider_id := provider_id r; action := Some v; status := status r;
     error := error r |}.

Definition set_status (v : final_status) (r : outreach_result) : outreach_result :=
  {| url := url r; username := username r; job_title := job_title r;
     provider_id := provider_id r; action := action r; status := Some v;
     error := error r |}.

Definition set_error (v : option text) (r : outreach_result) : outreach_result :=
  {| url := url r; username := username r; job_title := job_title r;
     provider_id := provider_id r; action := action r; status := status r;
     error := v |}.

Definition users_url (dsn username : text) : text :=
  lit "https://" ++ dsn ++ lit "/api/v1/users/" ++ username.

Definition professional : text := lit "Professional".

(** The body of the [try] of [extract_job_title] once the JSON is there;
    [None] when one of its steps raises. *)
Definition title_from (data : pyval) : option pyval :=
  match data with
  | PyDict entries =>
      let headline := dict_get (lit "headline") entries (PyStr []) in
      let experience := dict_get (lit "experience") entries (PyList []) in
      let otherwise :=
        Some (if truthy headline then headline else PyStr professional) in
      if truthy experience then
        (* [len(experience) > 0] holds or raises; then [experience[0]] *)
        match experience with
        | PyList (first :: _) =>
            match first with
            | PyDict job =>
                if dict_has (lit "title") job
                then Some (dict_get (lit "title") job PyNone)
                else otherwise
            | PyList items =>
                if existsb (is_str (lit "title")) items then None else otherwise
            | PyStr s =>
                if occurs (lit "title") s then None else otherwise
            | _ => None
            end
        | PyStr (c :: _) => if occurs (lit "title") [c] then None else otherwise
        | _ => None
        end
      else otherwise
  | _ => None
  end.

Section Calls.

Variable env : environment.
Variables api_key dsn account_id : text.

(** [extract_job_title(username, api_key, dsn, account_id)]: the bare
    [except] turns every failure into the generic label. *)
Definition extract_job_title (username : text) : pyval :=
  let request := {| get_url := users_url dsn username;
                    get_api_key := api_key; get_account_id := account_id |} in
  match job_title_get env request with
  | Fails _ => PyStr professional
  | Responds r =>
      match raise_for_status r with
      | Some _ => PyStr professional
      | None =>
          match body r with
          | JsonInvalid _ => PyStr professional
          | JsonValue data =>
              match title_from data with
              | Some title => title
              | None => PyStr professional
              end
          end
      end
  end.

(** [get_user_provider_id(username, api_key, dsn, account_id)]: the pair
    [(provider_id, error)].  Only a [RequestException] is caught. *)
Definition get_user_provider_id (username : text) : outcome (pyval * option text) :=
  let request := {| get_url := users_url dsn username;
                    get_api_key := api_key; get_account_id := account_id |} in
  let caught e := Returns (PyNone, Some (error_msg e)) in
  match resolver_get env request with
  | Fails e => caught e
  | Responds r =>
      match raise_for_status r with
      | Some e => caught e
      | None =>
          match body r with
          | JsonInvalid msg => caught {| exc_text := msg; exc_response := None |}
          | JsonValue (PyDict entries) =>
              let provider_id := dict_get (lit "provider_id") entries PyNone in
              if truthy provider_id
              then Returns (provider_id, None)
              else Returns (PyNone, Some (lit "Could not find provider_id in the response"))
          | JsonValue _ => Raises AttributeError
          end
      end
  end.

Definition chat_of (provider_id : pyval) (message_text : text) : chat_request :=
  {| chat_url := lit "https://" ++ dsn ++ lit "/api/v1/chats";
     chat_api_key := api_key; chat_account_id := account_id;
     chat_text := message_text; chat_attendees_ids := provider_id |}.

Definition invite_of (provider_id : pyval) (message : text) : invite_request :=
  {| invite_url := lit "https://" ++ dsn ++ lit "/api/v1/users/invite";
     invite_api_key := api_key; invite_provider_id := provider_id;
     invite_account_id := account_id; invite_message := message |}.

(** [send_message(provider_id, message_text, api_key, dsn, account_id)] *)
Definition send_message (provider_id : pyval) (message_text : text) : bool * text :=
  let caught e :=
    let plain := (false, lit "Error sending message: " ++ exc_text e) in
    match truthy_response e with
    | Some r =>
        if (status_code r =? 400)%Z || (status_code r =? 403)%Z
        then (false, lit "Failed to send message: " ++ response_text r)
        else plain
    | None => plain
    end in
  match chats_post env (chat_of provider_id message_text) with
  | Fails e => caught e
  | Responds r =>
      match raise_for_status r with
      | Some e => caught e
      | None => (true, lit "Message sent successfully")
      end
  end.

(** [send_connection_request(provider_id, message, api_key, dsn, account_id)] *)
Definition send_connection_request (provider_id : pyval) (message : text) : bool * text :=
  let caught e := (false, lit "Error sending connection request: " ++ error_msg e) in
  match invite_post env (invite_of provider_id message) with
  | Fails e => caught e
  | Responds r =>
      match raise_for_status r with
      | Some e => caught e
      | None => (true, lit "Connection request sent successfully")
      end
  end.

(** The two [replace] calls on one template (lines 374-378). *)
Definition personalize_text (template username job_title : text) : text :=
  replace (lit "{job_title}") job_title
          (replace (lit "{name}") (capitalize username) template).

(** Step 3 (lines 368-381): the result with its job title, and the two
    texts to send.  [str.replace] raises [TypeError] for a job title that is
    not a string. *)
Definition personalize_step (personalize : bool) (username : text)
    (message_template connection_template : text) (result : outreach_result)
  : list api_call * outcome (outreach_result * text * text) :=
  if personalize then
    let request := {| get_url := users_url dsn username;
                      get_api_key := api_key; get_account_id := account_id |} in
    let job_title := extract_job_title username in
    ([JobTitleGet request],
     match job_title with
     | PyStr title =>
         Returns (set_job_title job_title result,
                  personalize_text message_template username title,
                  personalize_text connection_template username title)
     | _ => Raises TypeError
     end)
  else ([], Returns (result, message_template, connection_template)).

(** Steps 4 and 5 (lines 383-403). *)
Definition deliver (result : outreach_result) (provider_id : pyval)
    (personalized_message personalized_connection : text)
  : list api_call * outreach_result :=
  let chat := ChatsPost (chat_of provider_id personalized_message) in
  let '(message_success, _) := send_message provider_id personalized_message in
  if message_success then
    ([chat], set_status Success (set_action Message result))
  else
    let invite := InvitePost (invite_of provider_id personalized_connection) in
    let '(connect_success, connect_result) :=
      send_connection_request provider_id personalized_connection in
    ([chat; invite],
     if connect_success
     then set_status Success (set_action ConnectionRequest result)
     else set_error (Some connect_result)
            (set_status Failed (set_action ConnectionRequest result))).

(** [process_linkedin_profile(linkedin_url, message_template,
    connection_template, api_key, dsn, account_id, personalize)]: the calls
    made to the directory, and the result dict or the exception that
    leaves the function. *)
Definition process_linkedin_profile (linkedin_url : url_input)
    (message_template connection_template : text) (personalize : bool)
  : list api_call * outcome outreach_result :=
  let result := fresh_result linkedin_url in
  match extract_linkedin_username (netloc_ok env) linkedin_url with
  | None =>
      ([], Returns
         (set_status Failed
            (set_error (Some (lit "Could not extract username from URL: "
                              ++ shown linkedin_url)) result)))
  | Some username =>
      let result := set_username username result in
      let lookup := ResolverGet {| get_url := users_url dsn username;
                                   get_api_key := api_key;
                                   get_account_id := account_id |} in
      match get_user_provider_id username with
      | Raises e => ([lookup], Raises e)
      | Returns (provider_id, error) =>
          if error_set error
          then ([lookup], Returns (set_status Failed (set_error error result)))
          else
            let result := set_provider_id provider_id result in
            match personalize_step personalize username message_template
                                   connection_template result with
            | (calls, Raises e) => (lookup :: calls, Raises e)
            | (calls, Returns (result, personalized_message, personalized_connection)) =>
                let '(sends, result) :=
                  deliver result provider_id personalized_message
                          personalized_connection in
                (lookup :: calls ++ sends, Returns result)
            end
      end
  end.

(** The loop of [main] over the URLs to process: an exception of one
    profile leaves the loop, and no result list is produced. *)
Fixpoint process_batch (linkedin_urls : list url_input)
    (message_text connection_text : text) (personalize : bool)
  : outcome (list outreach_result) :=
  match linkedin_urls with
  | [] => Returns []
  | linkedin_url :: rest =>
      bind (snd (process_linkedin_profile linkedin_url message_text connection_text
                                          personalize))
           (fun result =>
              bind (process_batch rest message_text connection_text personalize)
                   (fun results => Returns (result :: results)))
  end.

End Calls.

(** Whether a message send is among the calls made. *)
Definition is_chat (c : api_call) : bool :=
  match c with ChatsPost _ => true | _ => false end.

Definition send_attempted (calls : list api_call) : bool := existsb is_chat calls.

(** The title of the most recent experience, where the profile has one. *)
Definition experience_title (entries : list (text * pyval)) : option pyval :=
  match dict_get (lit "experience") entries (PyList []) with
  | PyList (PyDict job :: _) =>
      if dict_has (lit "title") job then Some (dict_get (lit "title") job PyNone) else None
  | _ => None
  end.

(** A job title is unavailable: the lookup fails (no answer, an error
    status, a body that is no JSON object), or the profile has neither an
    experience title nor a headline. *)
Definition title_unavailable (answer : http_outcome) : bool :=
  match answer with
  | Fails _ => true
  | Responds r =>
      negb (response_ok r) ||
      match body r with
      | JsonInvalid _ => true
      | JsonValue (PyDict entries) =>
          match experience_title entries with
          | Some _ => false
          | None => negb (truthy (dict_get (lit "headline") entries (PyStr [])))
          end
      | JsonValue _ => true
      end
  end.

End Directory.

(** ** The template language of the specification

    A template as the specification reads it: literal text and the two
    placeholders.  [tokens] reads a text as a template, [filled] is
    simultaneous substitution; the code instead runs two [replace] passes
    over the text ([personalize_text]). *)

Module Template.

Inductive token :=
| Literal (s : text)
| Name
| JobTitle.

Definition render (t : token) : text :=
  match t with
  | Literal s => s
  | Name => lit "{name}"
  | JobTitle => lit "{job_title}"
  end.

Definition template_of (ts : list token) : text := concat (map render ts).

Definition fill (name job_title : text) (t : token) : text :=
  match t with
  | Literal s => s
  | Name => name
  | JobTitle => job_title
  end.

Definition filled (name job_title : text) (ts : list token) : text :=
  concat (map (fill name job_title) ts).

(** The first pass turns the name placeholder into text. *)
Definition name_to (name : text) (t : token) : token :=
  match t with
  | Name => Literal name
  | _ => t
  end.

(** The reading of a text as a template: every occurrence of one of the
    two placeholders is that placeholder, every other character is literal
    text (a brace that opens neither of them included).  [skip] counts the
    characters of a placeholder that are still to be passed over. *)
Fixpoint read_from (skip : nat) (s : text) : list token :=
  match s with
  | [] => []
  | c :: s' =>
      match skip with
      | S k => read_from k s'
      | O =>
          if starts_with (lit "{name}") s then Name :: read_from 5 s'
          else if starts_with (lit "{job_title}") s then JobTitle :: read_from 10 s'
          else Literal [c] :: read_from 0 s'
      end
  end.

Definition tokens (s : text) : list token := read_from 0 s.

(** A name that cannot complete a [{job_title}] begun in the template: it
    is not empty and its first character is none of [job_title}]. *)
Definition starts_clear (name : text) : bool :=
  match name with
  | [] => false
  | c :: _ => negb (has_chr c (lit "job_title}"))
  end.

(** [s] begins with a beginning of [p], possibly empty, followed by the
    name placeholder. *)
Fixpoint opens_name (p s : text) : bool :=
  starts_with (lit "{name}") s ||
  match p, s with
  | x :: p', c :: s' => chr_eqb x c && opens_name p' s'
  | _, _ => false
  end.

(** The template holds a brace that a name could complete to a
    [{job_title}]: an opening brace that does not open that placeholder,
    followed by a beginning of [job_title}] and then by [{name}]. *)
Fixpoint half_open (s : text) : bool :=
  match s with
  | [] => false
  | c :: s' =>
      (chr_eqb "{"%char c && negb (starts_with (lit "{job_title}") s)
       && opens_name (lit "job_title}") s')
      || half_open s'
  end.

(** The name as the specification words it: first character upper-cased,
    the rest unchanged. *)
Definition first_upper (s : text) : text :=
  match s with
  | [] => []
  | c :: r => title_case c ++ r
  end.

End Template.

Import Discovery Directory Template.

(** ** Concrete runs used below *)

Module Scenario.

Definition accept_all (_ : text) : bool := true.

(** Every query answers with the same profile under both protocols. *)
Definition protocol_variants (_ : text) : search_outcome :=
  SearchReturns [lit "https://www.linkedin.com/in/bob";
                 lit "http://www.linkedin.com/in/bob"].

(** Every query answers with three profiles. *)
Definition three_profiles (_ : text) : search_outcome :=
  SearchReturns [lit "https://www.linkedin.com/in/ann";
                 lit "https://www.linkedin.com/in/bob";
                 lit "https://www.linkedin.com/in/cyd"].

(** Every query fails. *)
Definition provider_down (_ : text) : search_outcome :=
  SearchRaises (lit "HTTP Error 429: Too Many Requests").

(** The second targeted query fails, the others answer. *)
Definition second_query_fails (query : text) : search_outcome :=
  if starts_with (lit "inurl:") query
  then SearchRaises (lit "HTTP Error 429: Too Many Requests")
  else three_profiles query.

Definition answer (status : Z) (data : pyval) : http_outcome :=
  Responds {| status_code := status; response_text := lit "{...}";
              http_error_msg := lit "Client Error"; body := JsonValue data |}.

Definition profile_of_bob : pyval :=
  PyDict [(lit "provider_id", PyStr (lit "p_88"));
          (lit "headline", PyStr (lit "Engineer"))].

(** The sender is connected to the profile: every call succeeds. *)
Definition connected : environment :=
  {| netloc_ok := accept_all;
     resolver_get := fun _ => answer 200 profile_of_bob;
     job_title_get := fun _ => answer 200 profile_of_bob;
     chats_post := fun _ => answer 201 (PyDict []);
     invite_post := fun _ => answer 201 (PyDict []) |}.

(** The message is refused with 403, the invitation goes through. *)
Definition not_connected : environment :=
  {| netloc_ok := accept_all;
     resolver_get := fun _ => answer 200 profile_of_bob;
     job_title_get := fun _ => answer 200 profile_of_bob;
     chats_post := fun _ => answer 403 (PyDict []);
     invite_post := fun _ => answer 201 (PyDict []) |}.

(** The directory answers the profile lookup with a JSON array. *)
Definition array_body : environment :=
  {| netloc_ok := accept_all;
     resolver_get := fun _ => answer 200 (PyList []);
     job_title_get := fun _ => answer 200 (PyList []);
     chats_post := fun _ => answer 201 (PyDict []);
     invite_post := fun _ => answer 201 (PyDict []) |}.

(** The most recent position of the profile has a null title. *)
Definition null_title : environment :=
  {| netloc_ok := accept_all;
     resolver_get := fun _ => answer 200 profile_of_bob;
     job_title_get := fun _ =>
       answer 200 (PyDict [(lit "provider_id", PyStr (lit "p_88"));
                           (lit "experience",
                            PyList [PyDict [(lit "company", PyStr (lit "Acme"));
                                            (lit "title", PyNone)]])]);
     chats_post := fun _ => answer 201 (PyDict []);
     invite_post := fun _ => answer 201 (PyDict []) |}.

(** The profile has no [provider_id]. *)
Definition unknown_profile : environment :=
  {| netloc_ok := accept_all;
     resolver_get := fun _ => answer 200 (PyDict [(lit "headline", PyStr (lit "Engineer"))]);
     job_title_get := fun _ => answer 200 profile_of_bob;
     chats_post := fun _ => answer 201 (PyDict []);
     invite_post := fun _ => answer 201 (PyDict []) |}.

(** The lookup for the job title is refused. *)
Definition title_refused : environment :=
  {| netloc_ok := accept_all;
     resolver_get := fun _ => answer 200 profile_of_bob;
     job_title_get := fun _ => answer 429 PyNone;
     chats_post := fun _ => answer 201 (PyDict []);
     invite_post := fun _ => answer 201 (PyDict []) |}.


Definition bob : url_input := UrlText (lit "https://www.linkedin.com/in/bob").
Definition ann : url_input := UrlText (lit "https://www.linkedin.com/in/ann").

Definition message_template : text :=
  lit "Hi {name}! I noticed you're a {job_title}.".
Definition connection_template : text :=
  lit "Hi {name}! We're both in the {job_title} space.".

Definition run (env : environment) (linkedin_url : url_input) (personalize : bool)
  : list api_call * outcome outreach_result :=
  process_linkedin_profile env (lit "key") (lit "api.unipile.com") (lit "acct")
    linkedin_url message_template connection_template personalize.

End Scenario.

(** ** The outreach tab of [main]: URL entry, batch and summary *)

Module Batch.

(** [s.split(sep)] for a separator of one character: the pieces between the
    separators, at least one piece. *)
Fixpoint split_on (sep : ascii) (s : text) : list text :=
  match s with
  | [] => [[]]
  | c :: r =>
      if chr_eqb c sep then [] :: split_on sep r
      else
        match split_on sep r with
        | piece :: pieces => (c :: piece) :: pieces
        | [] => [[c]]
        end
  end.

Definition newline : ascii := ascii_of_nat 10.

(** [[url.strip() for url in urls_input.strip().split('\n') if url.strip()]]
    (line 553). *)
Definition manual_urls (urls_input : text) : list text :=
  map strip
      (filter (fun url => truthy_text (strip url)) (split_on newline (strip urls_input))).

(** The lines of a text area: the URLs with a newline between them. *)
Fixpoint join_lines (urls : list text) : text :=
  match urls with
  | [] => []
  | [url] => url
  | url :: rest => url ++ newline :: join_lines rest
  end.

(** A line as a user types it: not empty, no newline, no blank at either
    end. *)
Definition tidy (url : text) : bool :=
  match url with
  | [] => false
  | c :: _ =>
      negb (is_space c) && negb (is_space (last url c)) && negb (has_chr newline url)
  end.

(** [r["status"] == "Success"] and the tests on [r["action"]]. *)
Definition is_success (r : outreach_result) : bool :=
  match status r with Some Success => true | _ => false end.

Definition is_message (r : outreach_result) : bool :=
  match action r with Some Message => true | _ => false end.

Definition is_connection (r : outreach_result) : bool :=
  match action r with Some ConnectionRequest => true | _ => false end.

(** [sum(1 for r in results if test(r))] *)
Definition count (test : outreach_result -> bool) (results : list outreach_result) : nat :=
  length (filter test results).

(** The four figures of the processing summary (lines 619-629).  The rate
    is a division by [len(results)]: [None] stands for [ZeroDivisionError]. *)
Record summary := {
  total : nat;
  success_count : nat;
  message_count : nat;
  connection_count : nat
}.

Definition summarise (results : list outreach_result) : summary :=
  {| total := length results;
     success_count := count is_success results;
     message_count := count (fun r => is_message r && is_success r) results;
     connection_count := count (fun r => is_connection r && is_success r) results |}.

Definition success_rate (results : list outreach_result) : option Q :=
  match results with
  | [] => None
  | _ => Some (of_nat (count is_success results) / of_nat (length results))
  end.

(** [(i + 1) / len(linkedin_urls)] for each profile of a batch of [n]
    (line 609), in the order of the loop. *)
Definition batch_progress (n : nat) : list Q :=
  map (fun i => of_nat (i + 1) / of_nat n) (seq 0 n).

(** What pressing the process button leads to (lines 590-631): a refusal
    of the inputs, the results with their summary and rate, or the exception
    of a profile. *)
Inductive submission :=
| Refused (message : text)
| Processed (results : list outreach_result) (figures : summary) (rate : option Q)
| Aborted (e : py_exn).

Definition on_process_button (env : environment) (api_key dsn account_id : text)
    (linkedin_urls : list url_input) (message_text connection_text : text)
    (personalize : bool) : submission :=
  if negb (truthy_text api_key) then Refused (lit "Please enter your Unipile API Key")
  else if negb (truthy_text account_id) then Refused (lit "Please enter your Account ID")
  else
    match linkedin_urls with
    | [] => Refused (lit "Please enter at least one LinkedIn profile URL")
    | _ =>
        match process_batch env api_key dsn account_id linkedin_urls
                            message_text connection_text personalize with
        | Raises e => Aborted e
        | Returns results => Processed results (summarise results) (success_rate results)
        end
    end.

End Batch.

(** ** Shapes used to state what the parsers accept *)

Module Shape.

Definition no_newline (s : text) : bool := forallb (fun c => negb (is_newline c)) s.

Definition no_space (s : text) : bool := forallb (fun c => negb (is_space c)) s.

(** The text that group 1 of the profile pattern holds, and what follows
    the match in the searched text. *)
Definition capture (m post : text) : Prop :=
  exists scheme any seg,
    (scheme = lit "http" \/ scheme = lit "https") /\
    m = scheme ++ lit "://" ++ any ++ lit "linkedin.com/in/" ++ seg /\
    no_newline any = true /\ seg <> [] /\ forallb seg_chr seg = true /\
    tail_ok post = true.

(** A character of a host name or of a profile name in a plain profile
    URL. *)
Definition host_chr (c : ascii) : bool := negb (is_space c) && negb (netloc_end c).

Definition name_chr (c : ascii) : bool :=
  negb (is_space c) && negb (netloc_end c) && negb (chr_eqb c ";"%char).

(** What may follow the profile name: nothing, a query or a fragment. *)
Definition query_or_fragment (rest : text) : bool :=
  match rest with
  | [] => true
  | c :: _ => (chr_eqb c "?"%char || chr_eqb c "#"%char) && no_space rest
  end.

Definition slash (present : bool) : text := if present then lit "/" else [].

(** The kind of a call to the directory. *)
Inductive call_kind := ToResolver | ToJobTitle | ToChats | ToInvite.

Definition kind_of (c : api_call) : call_kind :=
  match c with
  | ResolverGet _ => ToResolver
  | JobTitleGet _ => ToJobTitle
  | ChatsPost _ => ToChats
  | InvitePost _ => ToInvite
  end.

(** The kinds of the calls one profile can cause. *)
Definition call_orders : list (list call_kind) :=
  [ [];
    [ToResolver];
    [ToResolver; ToJobTitle];
    [ToResolver; ToChats];
    [ToResolver; ToChats; ToInvite];
    [ToResolver; ToJobTitle; ToChats];
    [ToResolver; ToJobTitle; ToChats; ToInvite] ].

(** Every profile of the list is the capture of a known URL. *)
Definition captured_from (known : text -> Prop) (profile_urls : list text) : Prop :=
  forall p, In p profile_urls -> exists url, known url /\ first_match url = Some p.

(** A URL that the search provider lists in its answer to a query of
    [plan]. *)
Definition answered (search : text -> search_outcome) (plan : list text) (url : text)
  : Prop :=
  exists query urls, In query plan /\ search query = SearchReturns urls /\ In url urls.

End Shape.

(** * Properties *)

(** ** Text *)

Lemma chr_eqb_eq (a b : ascii) : chr_eqb a b = true <-> a = b.
Proof. apply Ascii.eqb_eq. Qed.

Lemma text_eqb_eq (a b : text) : text_eqb a b = true <-> a = b.
Proof.
  revert b; induction a as [|x a IH]; intros [|y b]; simpl; split;
    try discriminate; try reflexivity.
  - rewrite andb_true_iff, chr_eqb_eq, IH. now intros [-> ->].
  - intros E; injection E as -> ->.
    rewrite andb_true_iff, chr_eqb_eq, IH. now split.
Qed.

Lemma text_in_In (x : text) (l : list text) : text_in x l = true <-> In x l.
Proof.
  induction l as [|y l IH]; simpl.
  - split; [discriminate | contradiction].
  - rewrite orb_true_iff, text_eqb_eq, IH. intuition congruence.
Qed.

Lemma starts_with_split p s :
  starts_with p s = true -> s = p ++ skipn (length p) s.
Proof.
  revert s. induction p as [|x p IH]; intros [|y s]; simpl; try discriminate;
    try reflexivity.
  intros H. apply andb_true_iff in H. destruct H as [Hx Hp].
  apply chr_eqb_eq in Hx. subst y. f_equal. now apply IH.
Qed.

(** ** Discovery engine *)

Section DiscoveryFacts.

Variable search : text -> search_outcome.
Variable num_results : Z.

Lemma new_profile_fresh url acc p :
  new_profile url acc = Some p -> ~ In p acc.
Proof.
  unfold new_profile. destruct (first_match url) as [q|]; [|discriminate].
  destruct (text_in q acc) eqn:E; [discriminate|].
  intros [= <-] H. apply text_in_In in H. congruence.
Qed.

Lemma NoDup_snoc (p : text) acc : NoDup acc -> ~ In p acc -> NoDup (acc ++ [p]).
Proof.
  intros ND NI. apply NoDup_app; [assumption | repeat constructor; simpl; tauto |].
  intros x Hx [<-|[]]. contradiction.
Qed.

Lemma scan_targeted_NoDup i nq total urls : forall j acc,
  NoDup acc -> NoDup (snd (fst (scan_targeted num_results i nq total j urls acc))).
Proof.
  induction urls as [|u urls IH]; intros j acc ND; simpl; [assumption|].
  destruct (new_profile u acc) as [p|] eqn:E.
  - pose proof (NoDup_snoc p acc ND (new_profile_fresh _ _ _ E)) as ND'.
    destruct (reached num_results (acc ++ [p])); simpl; [assumption|].
    specialize (IH (S j) _ ND').
    destruct (scan_targeted num_results i nq total (S j) urls (acc ++ [p])) as [[r f] ev].
    exact IH.
  - specialize (IH (S j) _ ND).
    destruct (scan_targeted num_results i nq total (S j) urls acc) as [[r f] ev].
    exact IH.
Qed.

Lemma run_queries_NoDup nq qs : forall i acc,
  NoDup acc -> NoDup (snd (fst (run_queries search num_results i nq qs acc))).
Proof.
  induction qs as [|q qs IH]; intros i acc ND; simpl; [assumption|].
  destruct (search q) as [urls|msg].
  - pose proof (scan_targeted_NoDup i nq (length urls) urls 0 acc ND) as H.
    destruct (scan_targeted num_results i nq (length urls) 0 urls acc) as [[[|] f] ev];
      simpl in H; [exact H|].
    specialize (IH (S i) _ H).
    destruct (run_queries search num_results (S i) nq qs f) as [[r f'] ev']. exact IH.
  - specialize (IH (S i) _ ND).
    destruct (run_queries search num_results (S i) nq qs acc) as [[r f'] ev']. exact IH.
Qed.

Lemma scan_broader_NoDup total urls : forall j acc,
  NoDup acc -> NoDup (fst (scan_broader num_results total j urls acc)).
Proof.
  induction urls as [|u urls IH]; intros j acc ND; simpl; [assumption|].
  destruct (new_profile u acc) as [p|] eqn:E.
  - pose proof (NoDup_snoc p acc ND (new_profile_fresh _ _ _ E)) as ND'.
    destruct (reached num_results (acc ++ [p])); simpl; [assumption|].
    specialize (IH (S j) _ ND').
    destruct (scan_broader num_results total (S j) urls (acc ++ [p])) as [f ev].
    exact IH.
  - specialize (IH (S j) _ ND).
    destruct (scan_broader num_results total (S j) urls acc) as [f ev].
    exact IH.
Qed.

Lemma broader_search_NoDup keyword acc :
  NoDup acc -> NoDup (fst (broader_search search num_results keyword acc)).
Proof.
  intros ND. unfold broader_search.
  destruct (Z.of_nat (length acc) <? num_results)%Z; [|assumption].
  destruct (search (broader_query keyword)) as [urls|msg]; [|assumption].
  pose proof (scan_broader_NoDup (length urls) urls 0 acc ND) as H.
  destruct (scan_broader num_results (length urls) 0 urls acc) as [f ev]. exact H.
Qed.

End DiscoveryFacts.

(** C1 (as amended).  The list returned by [search_linkedin_profiles] never
    holds the same profile URL text twice, whatever the queries return:
    the membership test is on the text captured by the profile pattern. *)
Theorem search_returns_distinct_urls :
  forall search num_results keyword description,
    NoDup (fst (search_linkedin_profiles search num_results keyword description)).
Proof.
  intros search n k d. unfold search_linkedin_profiles.
  pose proof (run_queries_NoDup search n (length (queries k d)) (queries k d) 0 []
                (NoDup_nil _)) as H.
  destruct (run_queries search n 0 (length (queries k d)) (queries k d) [])
    as [[[|] f] ev]; simpl in H; [exact H|].
  pose proof (broader_search_NoDup search n k f H) as H'.
  destruct (broader_search search n k f) as [f' ev']. exact H'.
Qed.

(** C1 (as claimed) fails: two results that differ in the protocol only are
    both returned, and both carry the username [bob]. *)
Lemma same_username_returned_twice :
  ~ NoDup (map (fun u => extract_linkedin_username Scenario.accept_all (UrlText u))
               (fst (search_linkedin_profiles Scenario.protocol_variants 10
                       (lit "Data Scientist") (lit "fintech London")))).
Proof.
  vm_compute. intros H. inversion H as [|x l NI ND]; subst.
  apply NI. left. reflexivity.
Qed.

(** *** The cap *)


Lemma quiet_app a b : quiet (a ++ b) = quiet a && quiet b.
Proof.
  induction a as [|e a IH]; simpl; [reflexivity|].
  destruct e as [k d|q|[]|q|]; simpl; auto.
Qed.

Lemma capped_prefix final pre ev : capped final ev -> capped final (pre ++ ev).
Proof.
  intros (a & p & post & before & -> & Q & ->).
  exists (pre ++ a), p, post, before. now rewrite app_assoc.
Qed.

Lemma capped_cons final x ev : capped final ev -> capped final (x :: ev).
Proof. apply (capped_prefix final [x] ev). Qed.

(** Events before the capping profile do not matter. *)
Ltac capped_tail :=
  repeat apply capped_cons; repeat apply capped_prefix; try assumption.

Lemma capped_suffix final ev suf :
  capped final ev -> quiet suf = true -> capped final (ev ++ suf).
Proof.
  intros (a & p & post & before & -> & Q & ->) QS.
  exists a, p, (post ++ suf), before. repeat split.
  - now rewrite <- app_assoc.
  - now rewrite quiet_app, Q, QS.
Qed.

Section CapFacts.

Variable search : text -> search_outcome.
Variable num_results : Z.

Lemma reached_iff acc :
  reached num_results acc = true <-> (num_results <= Z.of_nat (length acc))%Z.
Proof. unfold reached. apply Z.leb_le. Qed.

Lemma length_snoc (acc : list text) p :
  Z.of_nat (length (acc ++ [p])) = (Z.of_nat (length acc) + 1)%Z.
Proof. rewrite length_app. simpl. lia. Qed.

Lemma scan_targeted_cap i nq total urls : forall j acc ret final ev,
  (Z.of_nat (length acc) < num_results)%Z ->
  scan_targeted num_results i nq total j urls acc = (ret, final, ev) ->
  if ret
  then Z.of_nat (length final) = num_results /\ capped final ev
  else (Z.of_nat (length final) < num_results)%Z.
Proof.
  induction urls as [|u urls IH]; intros j acc ret final ev Hlt; simpl.
  - intros [= <- <- <-]. assumption.
  - destruct (new_profile u acc) as [p|].
    + destruct (reached num_results (acc ++ [p])) eqn:R.
      * intros [= <- <- <-]. apply reached_iff in R. rewrite length_snoc in *.
        split; [lia|].
        exists [], p, [LogLine (LogReached num_results); SetProgress 1], acc. auto.
      * assert (Hlt' : (Z.of_nat (length (acc ++ [p])) < num_results)%Z).
        { destruct (Z.ltb_spec (Z.of_nat (length (acc ++ [p]))) num_results) as [L|L];
            [exact L|]. apply reached_iff in L. congruence. }
        destruct (scan_targeted num_results i nq total (S j) urls (acc ++ [p]))
          as [[r f] e] eqn:E.
        intros [= <- <- <-]. specialize (IH _ _ _ _ _ Hlt' E).
        destruct r; [|exact IH]. destruct IH as [L C]. split; [exact L|].
        capped_tail.
    + destruct (scan_targeted num_results i nq total (S j) urls acc) as [[r f] e] eqn:E.
      intros [= <- <- <-]. specialize (IH _ _ _ _ _ Hlt E).
      destruct r; [|exact IH]. destruct IH as [L C]. split; [exact L|].
      capped_tail.
Qed.

Lemma run_queries_cap nq qs : forall i acc ret final ev,
  (Z.of_nat (length acc) < num_results)%Z ->
  run_queries search num_results i nq qs acc = (ret, final, ev) ->
  if ret
  then Z.of_nat (length final) = num_results /\ capped final ev
  else (Z.of_nat (length final) < num_results)%Z.
Proof.
  induction qs as [|q qs IH]; intros i acc ret final ev Hlt; simpl.
  - intros [= <- <- <-]. assumption.
  - destruct (search q) as [urls|msg].
    + destruct (scan_targeted num_results i nq (length urls) 0 urls acc)
        as [[r f] e] eqn:E.
      pose proof (scan_targeted_cap i nq (length urls) urls 0 acc r f e Hlt E) as H.
      destruct r.
      * intros [= <- <- <-]. destruct H as [L C]. split; [exact L|].
        capped_tail.
      * destruct (run_queries search num_results (S i) nq qs f) as [[r' f'] e'] eqn:E'.
        intros [= <- <- <-]. specialize (IH _ _ _ _ _ H E').
        destruct r'; [|exact IH]. destruct IH as [L C]. split; [exact L|].
        capped_tail.
    + destruct (run_queries search num_results (S i) nq qs acc) as [[r' f'] e'] eqn:E'.
      intros [= <- <- <-]. specialize (IH _ _ _ _ _ Hlt E').
      destruct r'; [|exact IH]. destruct IH as [L C]. split; [exact L|].
      capped_tail.
Qed.

Lemma scan_broader_cap total urls : forall j acc final ev,
  (Z.of_nat (length acc) < num_results)%Z ->
  scan_broader num_results total j urls acc = (final, ev) ->
  (Z.of_nat (length final) <= num_results)%Z /\
  (Z.of_nat (length final) = num_results -> capped final ev).
Proof.
  induction urls as [|u urls IH]; intros j acc final ev Hlt; simpl.
  - intros [= <- <-]. split; lia.
  - destruct (new_profile u acc) as [p|].
    + destruct (reached num_results (acc ++ [p])) eqn:R.
      * intros [= <- <-]. apply reached_iff in R. rewrite length_snoc in *.
        split; [lia|]. intros _.
        exists [], p, [], acc. auto.
      * assert (Hlt' : (Z.of_nat (length (acc ++ [p])) < num_results)%Z).
        { destruct (Z.ltb_spec (Z.of_nat (length (acc ++ [p]))) num_results) as [L|L];
            [exact L|]. apply reached_iff in L. congruence. }
        destruct (scan_broader num_results total (S j) urls (acc ++ [p])) as [f e] eqn:E.
        intros [= <- <-]. destruct (IH _ _ _ _ Hlt' E) as [L C]. split; [exact L|].
        intros Heq. specialize (C Heq). capped_tail.
    + destruct (scan_broader num_results total (S j) urls acc) as [f e] eqn:E.
      intros [= <- <-]. destruct (IH _ _ _ _ Hlt E) as [L C]. split; [exact L|].
      intros Heq. specialize (C Heq). capped_tail.
Qed.

Lemma broader_search_cap keyword acc final ev :
  (Z.of_nat (length acc) < num_results)%Z ->
  broader_search search num_results keyword acc = (final, ev) ->
  (Z.of_nat (length final) <= num_results)%Z /\
  (Z.of_nat (length final) = num_results -> capped final ev).
Proof.
  intros Hlt. unfold broader_search.
  destruct (Z.ltb_spec (Z.of_nat (length acc)) num_results) as [_|L]; [|lia].
  destruct (search (broader_query keyword)) as [urls|msg].
  - destruct (scan_broader num_results (length urls) 0 urls acc) as [f e] eqn:E.
    intros [= <- <-].
    destruct (scan_broader_cap (length urls) urls 0 acc f e Hlt E) as [L C].
    split; [exact L|]. intros Heq. specialize (C Heq). capped_tail.
  - intros [= <- <-]. split; lia.
Qed.

End CapFacts.

(** C6.  With a positive [num_results] the returned list is never longer
    than [num_results]; and when it is that long, the run stopped at the
    profile that filled it: the trace after that profile's log line holds
    no further query, result or delay. *)
Theorem search_respects_cap :
  forall search num_results keyword description final trace,
    (0 < num_results)%Z ->
    search_linkedin_profiles search num_results keyword description = (final, trace) ->
    (Z.of_nat (length final) <= num_results)%Z /\
    (Z.of_nat (length final) = num_results -> capped final trace).
Proof.
  intros search n k d final trace Hpos. unfold search_linkedin_profiles.
  destruct (run_queries search n 0 (length (queries k d)) (queries k d) [])
    as [[r f] e] eqn:E.
  pose proof (run_queries_cap search n _ _ 0 [] r f e Hpos E) as H.
  destruct r.
  - intros [= <- <-]. destruct H as [L C]. split; [lia|]. intros _.
    capped_tail.
  - destruct (broader_search search n k f) as [f' e'] eqn:E'.
    intros [= <- <-].
    destruct (broader_search_cap search n k f f' e' H E') as [L C].
    split; [exact L|]. intros Heq. specialize (C Heq).
    repeat apply capped_cons. apply capped_prefix.
    apply capped_suffix; [assumption|]. now destruct f'.
Qed.

Lemma search_respects_cap_witness :
  let run := search_linkedin_profiles Scenario.three_profiles 2
               (lit "Data Scientist") (lit "fintech London") in
  (Z.of_nat (length (fst run)) <= 2)%Z /\
  (Z.of_nat (length (fst run)) = 2%Z -> capped (fst run) (snd run)).
Proof.
  apply (search_respects_cap Scenario.three_profiles 2
           (lit "Data Scientist") (lit "fintech London")).
  - lia.
  - apply surjective_pairing.
Defined.

(** *** Failing queries *)

Lemma searches_app a b : searches (a ++ b) = searches a ++ searches b.
Proof.
  induction a as [|e a IH]; simpl; [reflexivity|].
  destruct e; simpl; now rewrite ?IH.
Qed.

Section SkipFacts.

Variable search : text -> search_outcome.
Variable num_results : Z.

(** The scan of one query's results sends no query of its own. *)
Lemma scan_targeted_searches i nq total urls : forall j acc,
  searches (snd (scan_targeted num_results i nq total j urls acc)) = [].
Proof.
  induction urls as [|u urls IH]; intros j acc; simpl; [reflexivity|].
  destruct (new_profile u acc) as [p|].
  - destruct (reached num_results (acc ++ [p])); [reflexivity|].
    specialize (IH (S j) (acc ++ [p])).
    destruct (scan_targeted num_results i nq total (S j) urls (acc ++ [p])) as [[r f] e].
    exact IH.
  - specialize (IH (S j) acc).
    destruct (scan_targeted num_results i nq total (S j) urls acc) as [[r f] e].
    exact IH.
Qed.

Lemma scan_broader_searches total urls : forall j acc,
  searches (snd (scan_broader num_results total j urls acc)) = [].
Proof.
  induction urls as [|u urls IH]; intros j acc; simpl; [reflexivity|].
  destruct (new_profile u acc) as [p|].
  - destruct (reached num_results (acc ++ [p])); [reflexivity|].
    specialize (IH (S j) (acc ++ [p])).
    destruct (scan_broader num_results total (S j) urls (acc ++ [p])) as [f e].
    exact IH.
  - specialize (IH (S j) acc).
    destruct (scan_broader num_results total (S j) urls acc) as [f e].
    exact IH.
Qed.

Lemma run_queries_skipping nq qs : forall i acc,
  fst (run_queries search num_results i nq qs acc)
  = fst (run_queries (skipping search) num_results i nq qs acc) /\
  searches (snd (run_queries search num_results i nq qs acc))
  = searches (snd (run_queries (skipping search) num_results i nq qs acc)).
Proof.
  induction qs as [|q qs IH]; intros i acc; simpl; [auto|].
  assert (Hs : skipping search q
               = match search q with SearchRaises _ => SearchReturns [] | ok => ok end)
    by reflexivity.
  rewrite Hs; clear Hs. destruct (search q) as [urls|msg].
  - destruct (scan_targeted num_results i nq (length urls) 0 urls acc) as [[[|] f] e];
      [split; reflexivity|].
    specialize (IH (S i) f).
    destruct (run_queries search num_results (S i) nq qs f) as [[r1 f1] e1].
    destruct (run_queries (skipping search) num_results (S i) nq qs f) as [[r2 f2] e2].
    simpl in *. destruct IH as [E1 E2]. split; [exact E1|].
    now rewrite !searches_app, E2.
  - simpl. specialize (IH (S i) acc).
    destruct (run_queries search num_results (S i) nq qs acc) as [[r1 f1] e1].
    destruct (run_queries (skipping search) num_results (S i) nq qs acc) as [[r2 f2] e2].
    simpl in *. destruct IH as [E1 E2]. split; [exact E1|]. now rewrite E2.
Qed.

Lemma broader_search_skipping keyword acc :
  fst (broader_search search num_results keyword acc)
  = fst (broader_search (skipping search) num_results keyword acc) /\
  searches (snd (broader_search search num_results keyword acc))
  = searches (snd (broader_search (skipping search) num_results keyword acc)).
Proof.
  unfold broader_search.
  destruct (Z.of_nat (length acc) <? num_results)%Z; [|auto].
  unfold skipping. destruct (search (broader_query keyword)) as [urls|msg]; [auto|].
  simpl. split; reflexivity.
Qed.

Lemma search_skipping keyword description :
  fst (search_linkedin_profiles search num_results keyword description)
  = fst (search_linkedin_profiles (skipping search) num_results keyword description) /\
  searches (snd (search_linkedin_profiles search num_results keyword description))
  = searches (snd (search_linkedin_profiles (skipping search) num_results keyword
                     description)).
Proof.
  unfold search_linkedin_profiles.
  destruct (run_queries_skipping (length (queries keyword description))
              (queries keyword description) 0 []) as [E1 E2].
  destruct (run_queries search num_results 0 _ _ []) as [[r1 f1] e1].
  destruct (run_queries (skipping search) num_results 0 _ _ []) as [[r2 f2] e2].
  simpl in E1, E2. injection E1 as -> ->.
  destruct r2; simpl; [now rewrite E2|].
  destruct (broader_search_skipping keyword f2) as [B1 B2].
  destruct (broader_search search num_results keyword f2) as [g1 h1].
  destruct (broader_search (skipping search) num_results keyword f2) as [g2 h2].
  simpl in *. split; [exact B1|].
  now rewrite !searches_app, E2, B2.
Qed.

Lemma all_queries_fail keyword description :
  (forall query, In query (queries keyword description ++ [broader_query keyword]) ->
                 exists msg, search query = SearchRaises msg) ->
  fst (search_linkedin_profiles search num_results keyword description) = [] /\
  ((0 < num_results)%Z ->
   searches (snd (search_linkedin_profiles search num_results keyword description))
   = queries keyword description ++ [broader_query keyword]).
Proof.
  intros Hfail. unfold search_linkedin_profiles, queries in *.
  destruct (Hfail _ (or_introl eq_refl)) as [m1 E1].
  destruct (Hfail _ (or_intror (or_introl eq_refl))) as [m2 E2].
  destruct (Hfail _ (or_intror (or_intror (or_introl eq_refl)))) as [m3 E3].
  destruct (Hfail _ (or_intror (or_intror (or_intror (or_introl eq_refl))))) as [m4 E4].
  cbn [run_queries length]. rewrite E1, E2, E3. cbn [run_queries].
  unfold broader_search. cbn [length Z.of_nat].
  destruct (Z.ltb_spec 0 num_results) as [L|L].
  - rewrite E4. split; [reflexivity|]. intros _. reflexivity.
  - split; [reflexivity|]. lia.
Qed.

(** The targeted loop sends every query, or stops right after a query that
    answered. *)
Lemma run_queries_stops_at_answer nq qs : forall i acc ret final ev,
  run_queries search num_results i nq qs acc = (ret, final, ev) ->
  if ret
  then exists pre query urls post,
         qs = pre ++ query :: post /\ searches ev = pre ++ [query] /\
         search query = SearchReturns urls
  else searches ev = qs.
Proof.
  induction qs as [|q qs IH]; intros i acc ret final ev; simpl.
  - intros [= <- <- <-]. reflexivity.
  - destruct (search q) as [urls|msg] eqn:Sq.
    + pose proof (scan_targeted_searches i nq (length urls) urls 0 acc) as Hs.
      destruct (scan_targeted num_results i nq (length urls) 0 urls acc)
        as [[[|] f] e]; simpl in Hs.
      * intros [= <- <- <-]. exists [], q, urls, qs. cbn [searches app].
        rewrite Hs. auto.
      * destruct (run_queries search num_results (S i) nq qs f) as [[r' f'] e'] eqn:E.
        intros [= <- <- <-]. specialize (IH _ _ _ _ _ E).
        cbn [app searches]. rewrite searches_app, Hs. cbn [app].
        destruct r'.
        -- destruct IH as (pre & query & us & post & -> & He & Hq).
           exists (q :: pre), query, us, post. rewrite He. auto.
        -- now rewrite IH.
    + destruct (run_queries search num_results (S i) nq qs acc) as [[r' f'] e'] eqn:E.
      intros [= <- <- <-]. specialize (IH _ _ _ _ _ E).
      cbn [app searches].
      destruct r'.
      * destruct IH as (pre & query & us & post & -> & He & Hq).
        exists (q :: pre), query, us, post. rewrite He. auto.
      * now rewrite IH.
Qed.

(** Below the cap the broader query is sent, whatever it answers. *)
Lemma broader_search_sent keyword acc :
  (Z.of_nat (length acc) < num_results)%Z ->
  searches (snd (broader_search search num_results keyword acc)) = [broader_query keyword].
Proof.
  intros L. unfold broader_search.
  destruct (Z.ltb_spec (Z.of_nat (length acc)) num_results) as [_|G]; [|lia].
  destruct (search (broader_query keyword)) as [urls|msg]; [|reflexivity].
  pose proof (scan_broader_searches (length urls) urls 0 acc) as H.
  destruct (scan_broader num_results (length urls) 0 urls acc) as [f e].
  cbn [fst snd app searches] in *. now rewrite H.
Qed.

(** The loops return early only on a full list. *)
Lemma scan_targeted_full i nq total urls : forall j acc final ev,
  scan_targeted num_results i nq total j urls acc = (true, final, ev) ->
  (num_results <= Z.of_nat (length final))%Z.
Proof.
  induction urls as [|u urls IH]; intros j acc final ev; simpl; [discriminate|].
  destruct (new_profile u acc) as [p|].
  - destruct (reached num_results (acc ++ [p])) eqn:R.
    + intros [= <- <-]. now apply reached_iff.
    + destruct (scan_targeted num_results i nq total (S j) urls (acc ++ [p]))
        as [[r f] e] eqn:E.
      intros [= -> <- <-]. exact (IH _ _ _ _ E).
  - destruct (scan_targeted num_results i nq total (S j) urls acc) as [[r f] e] eqn:E.
    intros [= -> <- <-]. exact (IH _ _ _ _ E).
Qed.

Lemma run_queries_full nq qs : forall i acc final ev,
  run_queries search num_results i nq qs acc = (true, final, ev) ->
  (num_results <= Z.of_nat (length final))%Z.
Proof.
  induction qs as [|q qs IH]; intros i acc final ev; simpl; [discriminate|].
  destruct (search q) as [urls|msg].
  - destruct (scan_targeted num_results i nq (length urls) 0 urls acc)
      as [[[|] f] e] eqn:E.
    + intros [= <- <-]. exact (scan_targeted_full _ _ _ _ _ _ _ _ E).
    + destruct (run_queries search num_results (S i) nq qs f) as [[r' f'] e'] eqn:E'.
      intros [= -> <- <-]. exact (IH _ _ _ _ E').
  - destruct (run_queries search num_results (S i) nq qs acc) as [[r' f'] e'] eqn:E'.
    intros [= -> <- <-]. exact (IH _ _ _ _ E').
Qed.

Lemma search_stops_at_answer keyword description :
  let plan := queries keyword description ++ [broader_query keyword] in
  let run := search_linkedin_profiles search num_results keyword description in
  searches (snd run) = plan
  \/ (exists sent query urls rest,
        plan = sent ++ query :: rest /\ searches (snd run) = sent ++ [query] /\
        search query = SearchReturns urls /\
        (num_results <= Z.of_nat (length (fst run)))%Z)
  \/ ((num_results <= 0)%Z /\ searches (snd run) = queries keyword description).
Proof.
  intros plan run. subst plan run. unfold search_linkedin_profiles.
  set (qs := queries keyword description).
  destruct (run_queries search num_results 0 (length qs) qs []) as [[r f] e] eqn:E.
  pose proof (run_queries_stops_at_answer _ _ _ _ _ _ _ E) as H.
  destruct r.
  - right. left. destruct H as (pre & query & urls & post & Hq & Hs & Ha).
    exists pre, query, urls, (post ++ [broader_query keyword]).
    cbn [fst snd app searches]. rewrite Hq, <- app_assoc. cbn [app].
    repeat split; [exact Hs | exact Ha |]. exact (run_queries_full _ _ _ _ _ _ E).
  - destruct (Z.ltb_spec 0 num_results) as [Hpos|Hle].
    + left.
      pose proof (run_queries_cap search num_results _ _ 0 [] false f e Hpos E) as C.
      pose proof (broader_search_sent keyword f C) as B.
      destruct (broader_search search num_results keyword f) as [g h].
      cbn [fst snd app searches] in *. rewrite !searches_app, H, B. reflexivity.
    + destruct (Z.ltb_spec (Z.of_nat (length f)) num_results) as [L|L]; [lia|].
      right. right. split; [exact Hle|].
      unfold broader_search.
      destruct (Z.ltb_spec (Z.of_nat (length f)) num_results) as [L'|_]; [lia|].
      cbn [fst snd app searches]. rewrite !searches_app, H. cbn [searches].
      now rewrite app_nil_r.
Qed.

End SkipFacts.

(** C8.  When the three targeted queries and the broader query all raise,
    the engine returns the empty list (and, for a positive [num_results],
    has sent all four queries, in the order of the plan).  In general a
    query that raises counts as a query without results: with every failure
    replaced by an empty answer the engine returns the same list and sends
    the same queries.  And a failure never ends the search: the engine
    sends the whole plan; or it stops right after a query that answered and
    filled the list, the queries sent being the plan up to that query; or,
    asked for no profile at all, it sends the three targeted queries and
    leaves the broader one out. *)
Theorem failed_queries_are_skipped :
  forall search num_results keyword description,
    ((forall query, In query (queries keyword description ++ [broader_query keyword]) ->
                    exists msg, search query = SearchRaises msg) ->
     fst (search_linkedin_profiles search num_results keyword description) = [] /\
     ((0 < num_results)%Z ->
      searches (snd (search_linkedin_profiles search num_results keyword description))
      = queries keyword description ++ [broader_query keyword]))
    /\ fst (search_linkedin_profiles search num_results keyword description)
       = fst (search_linkedin_profiles (skipping search) num_results keyword description)
    /\ searches (snd (search_linkedin_profiles search num_results keyword description))
       = searches (snd (search_linkedin_profiles (skipping search) num_results keyword
                          description))
    /\ (searches (snd (search_linkedin_profiles search num_results keyword description))
        = queries keyword description ++ [broader_query keyword]
        \/
        (exists sent query urls rest,
            queries keyword description ++ [broader_query keyword]
            = sent ++ query :: rest /\
            searches (snd (search_linkedin_profiles search num_results keyword
                             description))
            = sent ++ [query] /\
            search query = SearchReturns urls /\
            (num_results
             <= Z.of_nat (length (fst (search_linkedin_profiles search num_results keyword
                                         description))))%Z)
        \/
        ((num_results <= 0)%Z /\
         searches (snd (search_linkedin_profiles search num_results keyword description))
         = queries keyword description)).
Proof.
  intros search n k d. split; [apply all_queries_fail|].
  destruct (search_skipping search n k d) as [E1 E2].
  split; [exact E1|]. split; [exact E2|].
  apply search_stops_at_answer.
Qed.

Lemma failed_queries_are_skipped_witness :
  (fst (search_linkedin_profiles Scenario.provider_down 10
          (lit "Data Scientist") (lit "fintech London")) = [] /\
   searches (snd (search_linkedin_profiles Scenario.provider_down 10
                    (lit "Data Scientist") (lit "fintech London")))
   = queries (lit "Data Scientist") (lit "fintech London")
     ++ [broader_query (lit "Data Scientist")]) /\
  searches (snd (search_linkedin_profiles Scenario.second_query_fails 10
                   (lit "Data Scientist") (lit "fintech London")))
  = queries (lit "Data Scientist") (lit "fintech London")
    ++ [broader_query (lit "Data Scientist")].
Proof.
  split.
  - destruct (failed_queries_are_skipped Scenario.provider_down 10
                (lit "Data Scientist") (lit "fintech London")) as [H _].
    destruct H as [E S].
    + intros query _. eexists. reflexivity.
    + split; [exact E|]. apply S. lia.
  - destruct (failed_queries_are_skipped Scenario.second_query_fails 10
                (lit "Data Scientist") (lit "fintech London")) as (_ & _ & _ & H).
    destruct H as [E | [(sent & query & urls & rest & _ & _ & _ & L) | (L & _)]].
    + exact E.
    + vm_compute in L. exfalso. apply L. reflexivity.
    + vm_compute in L. exfalso. apply L. reflexivity.
Defined.

(** *** The progress bar *)


Lemma of_nat_nonneg n : 0 <= of_nat n.
Proof. unfold of_nat. change 0 with (inject_Z 0). rewrite <- Zle_Qle. lia. Qed.

Lemma div_nonneg a b : 0 <= a -> 0 <= b -> 0 <= a / b.
Proof.
  intros Ha Hb. unfold Qdiv. apply Qmult_le_0_compat; [exact Ha|].
  now apply Qinv_le_0_compat.
Qed.

Lemma py_min_le_r a b : py_min a b <= b.
Proof.
  unfold py_min. destruct (Qle_bool a b) eqn:E.
  - now apply Qle_bool_iff.
  - apply Qle_refl.
Qed.

Lemma py_min_nonneg a b : 0 <= a -> 0 <= b -> 0 <= py_min a b.
Proof. intros Ha Hb. unfold py_min. now destruct (Qle_bool a b). Qed.

Lemma query_progress_in_unit i nq : (i < nq)%nat -> in_unit (query_progress i nq).
Proof.
  intros Hlt. unfold query_progress, in_unit.
  assert (H0 : 0 <= of_nat i / of_nat nq)
    by (apply div_nonneg; apply of_nat_nonneg).
  assert (H1 : of_nat i / of_nat nq <= 1).
  { apply Qle_shift_div_r.
    - unfold of_nat. change 0 with (inject_Z 0). rewrite <- Zlt_Qlt. lia.
    - rewrite Qmult_1_l. unfold of_nat. rewrite <- Zle_Qle. lia. }
  split; lra.
Qed.

Lemma targeted_progress_in_unit i j total nq : in_unit (targeted_progress i j total nq).
Proof.
  unfold targeted_progress, in_unit. split.
  - apply py_min_nonneg; [|lra].
    assert (H0 : 0 <= of_nat (j + 1) / of_nat total)
      by (apply div_nonneg; apply of_nat_nonneg).
    assert (H1 : 0 <= (of_nat i + of_nat (j + 1) / of_nat total) / of_nat nq).
    { apply div_nonneg; [|apply of_nat_nonneg].
      pose proof (of_nat_nonneg i). lra. }
    lra.
  - pose proof (py_min_le_r
                  ((1 # 2) + (of_nat i + of_nat (j + 1) / of_nat total) / of_nat nq * (1 # 2))
                  (9 # 10)).
    lra.
Qed.

Lemma broader_progress_in_unit j total : in_unit (broader_progress j total).
Proof.
  unfold broader_progress, in_unit. split.
  - apply py_min_nonneg; [|lra].
    assert (H0 : 0 <= of_nat (j + 1) / of_nat total)
      by (apply div_nonneg; apply of_nat_nonneg).
    lra.
  - pose proof (py_min_le_r ((9 # 10) + of_nat (j + 1) / of_nat total * (1 # 10)) (99 # 100)).
    lra.
Qed.

Lemma progress_values_app a b :
  progress_values (a ++ b) = progress_values a ++ progress_values b.
Proof.
  induction a as [|e a IH]; simpl; [reflexivity|].
  destruct e; simpl; now rewrite ?IH.
Qed.

Lemma one_in_unit : in_unit 1.
Proof. unfold in_unit. split; lra. Qed.

Lemma zero_in_unit : in_unit 0.
Proof. unfold in_unit. split; lra. Qed.

Section ProgressFacts.

Variable search : text -> search_outcome.
Variable num_results : Z.

Lemma scan_targeted_in_unit i nq total urls : forall j acc,
  Forall in_unit (progress_values (snd (scan_targeted num_results i nq total j urls acc))).
Proof.
  induction urls as [|u urls IH]; intros j acc; simpl; [constructor|].
  destruct (new_profile u acc) as [p|].
  - destruct (reached num_results (acc ++ [p])); simpl.
    + repeat constructor; apply one_in_unit.
    + specialize (IH (S j) (acc ++ [p])).
      destruct (scan_targeted num_results i nq total (S j) urls (acc ++ [p])) as [[r f] e].
      simpl. constructor; [apply targeted_progress_in_unit | exact IH].
  - specialize (IH (S j) acc).
    destruct (scan_targeted num_results i nq total (S j) urls acc) as [[r f] e].
    simpl. constructor; [apply targeted_progress_in_unit | exact IH].
Qed.

Lemma run_queries_in_unit nq qs : forall i acc,
  (i + length qs = nq)%nat ->
  Forall in_unit (progress_values (snd (run_queries search num_results i nq qs acc))).
Proof.
  induction qs as [|q qs IH]; intros i acc Hn; simpl; [constructor|].
  simpl in Hn.
  assert (Hq : in_unit (query_progress i nq)) by (apply query_progress_in_unit; lia).
  destruct (search q) as [urls|msg].
  - pose proof (scan_targeted_in_unit i nq (length urls) urls 0 acc) as Hs.
    destruct (scan_targeted num_results i nq (length urls) 0 urls acc) as [[[|] f] e];
      simpl in *.
    + constructor; assumption.
    + specialize (IH (S i) f ltac:(lia)).
      destruct (run_queries search num_results (S i) nq qs f) as [[r' f'] e'].
      simpl in *. constructor; [assumption|].
      rewrite progress_values_app. apply Forall_app. now split.
  - specialize (IH (S i) acc ltac:(lia)).
    destruct (run_queries search num_results (S i) nq qs acc) as [[r' f'] e'].
    simpl in *. constructor; assumption.
Qed.

Lemma scan_broader_in_unit total urls : forall j acc,
  Forall in_unit (progress_values (snd (scan_broader num_results total j urls acc))).
Proof.
  induction urls as [|u urls IH]; intros j acc; simpl; [constructor|].
  destruct (new_profile u acc) as [p|].
  - destruct (reached num_results (acc ++ [p])); simpl; [constructor|].
    specialize (IH (S j) (acc ++ [p])).
    destruct (scan_broader num_results total (S j) urls (acc ++ [p])) as [f e].
    simpl. constructor; [apply broader_progress_in_unit | exact IH].
  - specialize (IH (S j) acc).
    destruct (scan_broader num_results total (S j) urls acc) as [f e].
    simpl. constructor; [apply broader_progress_in_unit | exact IH].
Qed.

(** Every value handed to the progress bar lies in [[0,1]] (outside of it
    the widget would raise). *)
Lemma progress_within_unit keyword description :
  Forall in_unit
    (progress_values (snd (search_linkedin_profiles search num_results keyword description))).
Proof.
  unfold search_linkedin_profiles.
  pose proof (run_queries_in_unit (length (queries keyword description))
                (queries keyword description) 0 [] eq_refl) as H.
  destruct (run_queries search num_results 0 _ _ []) as [[[|] f] e]; simpl in *.
  - constructor; [apply zero_in_unit | exact H].
  - assert (B : Forall in_unit
                  (progress_values (snd (broader_search search num_results keyword f)))).
    { unfold broader_search.
      destruct (Z.of_nat (length f) <? num_results)%Z; [|constructor].
      destruct (search (broader_query keyword)) as [urls|msg]; [|constructor].
      pose proof (scan_broader_in_unit (length urls) urls 0 f) as Hs.
      destruct (scan_broader num_results (length urls) 0 urls f) as [g h]. exact Hs. }
    destruct (broader_search search num_results keyword f) as [g h]. simpl in *.
    constructor; [apply zero_in_unit|].
    rewrite !progress_values_app. repeat (apply Forall_app; split); try assumption.
    simpl. repeat constructor; apply one_in_unit.
Qed.

End ProgressFacts.

(** C7 at a run the code can make: every query answers with three profile
    URLs and [num_results] is 10.  The bar is given 2/3 after the last result
    of the first query and 1/6 at the start of the second one, so the values
    are not non-decreasing. *)
Theorem progress_bar_steps_back :
  ~ nondecreasing
      (progress_values
         (snd (search_linkedin_profiles Scenario.three_profiles 10
                 (lit "Data Scientist") (lit "fintech London")))).
Proof.
  vm_compute. intros (_ & _ & _ & _ & H & _). apply H. reflexivity.
Qed.

(** ** Delivery pipeline *)

Section PipelineFacts.

Variable env : environment.
Variables api_key dsn account_id : text.

Local Abbreviation resolve := (get_user_provider_id env api_key dsn account_id).
Local Abbreviation prepare := (personalize_step env api_key dsn account_id).
Local Abbreviation message := (send_message env api_key dsn account_id).
Local Abbreviation invite := (send_connection_request env api_key dsn account_id).
Local Abbreviation process := (process_linkedin_profile env api_key dsn account_id).

(** The result as it stands when step 3 begins. *)
Local Abbreviation resolved linkedin_url user pid :=
  (set_provider_id pid (set_username user (fresh_result linkedin_url))).

(** What [deliver] leaves in the result, by the outcome of the two sends. *)
Lemma deliver_result result pid pm pc :
  let r := snd (deliver env api_key dsn account_id result pid pm pc) in
  username r = username result /\ job_title r = job_title result /\
  match message pid pm with
  | (true, _) => action r = Some Message /\ status r = Some Success /\ error r = error result
  | (false, _) =>
      match invite pid pc with
      | (true, _) =>
          action r = Some ConnectionRequest /\ status r = Some Success /\
          error r = error result
      | (false, reason) =>
          action r = Some ConnectionRequest /\ status r = Some Failed /\
          error r = Some reason
      end
  end.
Proof.
  unfold deliver.
  destruct (message pid pm) as [[|] m]; simpl; [tauto|].
  destruct (invite pid pc) as [[|] c]; simpl; tauto.
Qed.

Lemma deliver_calls result pid pm pc :
  send_attempted (fst (deliver env api_key dsn account_id result pid pm pc)) = true.
Proof.
  unfold deliver.
  destruct (message pid pm) as [[|] m]; simpl; [reflexivity|].
  destruct (invite pid pc) as [[|] c]; reflexivity.
Qed.

(** Step 3 touches the job title only, and makes no send. *)
Lemma prepare_result personalize user mt ct result calls staged pm pc :
  prepare personalize user mt ct result = (calls, Returns (staged, pm, pc)) ->
  username staged = username result /\ error staged = error result /\
  send_attempted calls = false /\
  (if personalize
   then exists title,
       extract_job_title env api_key dsn account_id user = PyStr title /\
       job_title staged = PyStr title
   else job_title staged = job_title result).
Proof.
  unfold personalize_step. destruct personalize.
  - destruct (extract_job_title env api_key dsn account_id user) as [| | | |t| |] eqn:E;
      try discriminate.
    intros [= <- <- <- <-]. simpl. repeat split. exists t. now split.
  - intros [= <- <- <- <-]. now repeat split.
Qed.

Lemma error_set_true err :
  error_set err = true -> exists reason, err = Some reason /\ reason <> [].
Proof.
  destruct err as [[|c reason]|]; simpl; try discriminate.
  intros _. eexists. split; [reflexivity | discriminate].
Qed.

(** The facts about the call of [deliver] in the goal. *)
Ltac deliver_facts H Hc :=
  match goal with
  | |- context [deliver _ _ _ _ ?res ?pid ?pm ?pc] =>
      pose proof (deliver_result res pid pm pc) as H;
      pose proof (deliver_calls res pid pm pc) as Hc;
      destruct (deliver env api_key dsn account_id res pid pm pc) as [?s ?r];
      cbn [fst snd] in H, Hc
  end.

(** The run of a profile that gets through steps 1 to 3. *)
Lemma process_send_stage linkedin_url mt ct personalize user pid err calls staged pm pc :
  extract_linkedin_username (netloc_ok env) linkedin_url = Some user ->
  resolve user = Returns (pid, err) ->
  error_set err = false ->
  prepare personalize user mt ct (resolved linkedin_url user pid)
  = (calls, Returns (staged, pm, pc)) ->
  exists sends r,
    process linkedin_url mt ct personalize = (sends, Returns r) /\
    send_attempted sends = true /\
    username r = Some user /\ job_title r = job_title staged /\
    match message pid pm with
    | (true, _) => action r = Some Message /\ status r = Some Success /\ error r = None
    | (false, _) =>
        match invite pid pc with
        | (true, _) =>
            action r = Some ConnectionRequest /\ status r = Some Success /\ error r = None
        | (false, reason) =>
            action r = Some ConnectionRequest /\ status r = Some Failed /\
            error r = Some reason
        end
    end.
Proof.
  intros Hu Hr He Hp. unfold process_linkedin_profile.
  rewrite Hu, Hr, He, Hp.
  destruct (prepare_result _ _ _ _ _ _ _ _ _ Hp) as (Hn & Herr & _ & _).
  deliver_facts H Hc. destruct H as (Hn' & Ht' & H).
  eexists. eexists. split; [reflexivity|].
  split; [|split; [|split]].
  - unfold send_attempted in *. simpl. rewrite existsb_app, Hc. apply orb_true_r.
  - now rewrite Hn', Hn.
  - exact Ht'.
  - rewrite Herr in H. exact H.
Qed.

(** C2.  For a profile that reaches the send stage (username extracted,
    provider id resolved, texts prepared) the pipeline returns a result
    with: [Message] and [Success] when the message send succeeds;
    [ConnectionRequest] and [Success] when it fails and the invitation
    succeeds; [ConnectionRequest], [Failed] and the failure text of
    [send_connection_request] as error when both fail. *)
Theorem delivery_outcomes linkedin_url mt ct personalize user pid err calls staged pm pc :
  extract_linkedin_username (netloc_ok env) linkedin_url = Some user ->
  resolve user = Returns (pid, err) ->
  error_set err = false ->
  prepare personalize user mt ct (resolved linkedin_url user pid)
  = (calls, Returns (staged, pm, pc)) ->
  exists sends r,
    process linkedin_url mt ct personalize = (sends, Returns r) /\
    match message pid pm with
    | (true, _) => action r = Some Message /\ status r = Some Success
    | (false, _) =>
        match invite pid pc with
        | (true, _) => action r = Some ConnectionRequest /\ status r = Some Success
        | (false, reason) =>
            action r = Some ConnectionRequest /\ status r = Some Failed /\
            error r = Some reason
        end
    end.
Proof.
  intros Hu Hr He Hp.
  destruct (process_send_stage linkedin_url mt ct personalize user pid err calls
              staged pm pc Hu Hr He Hp) as (sends & r & Hrun & _ & _ & _ & H).
  exists sends, r. split; [exact Hrun|].
  destruct (message pid pm) as [[|] m]; [tauto|].
  destruct (invite pid pc) as [[|] c]; tauto.
Qed.

(** The ways a run ends with a result: step 1 fails, step 2 fails, or the
    send stage is reached. *)
Lemma process_returns linkedin_url mt ct personalize sends r :
  process linkedin_url mt ct personalize = (sends, Returns r) ->
  (extract_linkedin_username (netloc_ok env) linkedin_url = None /\
   sends = [] /\
   r = set_status Failed
         (set_error (Some (lit "Could not extract username from URL: "
                           ++ shown linkedin_url)) (fresh_result linkedin_url)))
  \/ (exists user pid err,
         extract_linkedin_username (netloc_ok env) linkedin_url = Some user /\
         resolve user = Returns (pid, err) /\ error_set err = true /\
         send_attempted sends = false /\
         r = set_status Failed
               (set_error err (set_username user (fresh_result linkedin_url))))
  \/ (exists user pid err calls staged pm pc,
         extract_linkedin_username (netloc_ok env) linkedin_url = Some user /\
         resolve user = Returns (pid, err) /\ error_set err = false /\
         prepare personalize user mt ct (resolved linkedin_url user pid)
         = (calls, Returns (staged, pm, pc))).
Proof.
  unfold process_linkedin_profile.
  destruct (extract_linkedin_username (netloc_ok env) linkedin_url) as [user|] eqn:Hu.
  2:{ intros [= <- <-]. left. auto. }
  destruct (resolve user) as [[pid err]|e] eqn:Hr; [|discriminate].
  destruct (error_set err) eqn:He.
  { intros [= <- <-]. right. left. exists user, pid, err. auto. }
  destruct (prepare personalize user mt ct (resolved linkedin_url user pid))
    as [calls [[[staged pm] pc]|e]] eqn:Hp; [|discriminate].
  intros _. right. right. exists user, pid, err, calls, staged, pm, pc. auto.
Qed.

(** C10.  In every result the pipeline returns, the error field is set
    exactly when the status is [Failed]; on the fallback path (message
    refused, invitation accepted) the result is a success whose error field
    is empty: the reason of the refused message is dropped. *)
Theorem error_iff_failed linkedin_url mt ct personalize sends r :
  process linkedin_url mt ct personalize = (sends, Returns r) ->
  (error r <> None <-> status r = Some Failed) /\
  (forall user pid err calls staged pm pc,
      extract_linkedin_username (netloc_ok env) linkedin_url = Some user ->
      resolve user = Returns (pid, err) ->
      error_set err = false ->
      prepare personalize user mt ct (resolved linkedin_url user pid)
      = (calls, Returns (staged, pm, pc)) ->
      fst (message pid pm) = false ->
      fst (invite pid pc) = true ->
      action r = Some ConnectionRequest /\ status r = Some Success /\ error r = None).
Proof.
  intros Hrun. split.
  - destruct (process_returns _ _ _ _ _ _ Hrun)
      as [(_ & _ & ->) | [(user & pid & err & _ & _ & He & _ & ->)
                         | (user & pid & err & calls & staged & pm & pc
                            & Hu & Hr & He & Hp)]].
    + simpl. split; [reflexivity | discriminate].
    + simpl. destruct (error_set_true err He) as (reason & -> & _).
      split; [reflexivity | discriminate].
    + destruct (process_send_stage _ mt ct personalize _ _ _ _ _ _ _ Hu Hr He Hp)
        as (sends' & r' & Hrun' & _ & _ & _ & H).
      rewrite Hrun in Hrun'. injection Hrun' as <- <-.
      destruct (message pid pm) as [[|] m].
      { destruct H as (_ & -> & ->). split; [congruence | discriminate]. }
      destruct (invite pid pc) as [[|] c]; destruct H as (_ & -> & ->).
      * split; [congruence | discriminate].
      * split; [reflexivity | discriminate].
  - intros user pid err calls staged pm pc Hu Hr He Hp Hm Hi.
    destruct (process_send_stage _ mt ct personalize _ _ _ _ _ _ _ Hu Hr He Hp)
      as (sends' & r' & Hrun' & _ & _ & _ & H).
    rewrite Hrun in Hrun'. injection Hrun' as <- <-.
    destruct (message pid pm) as [[|] m]; [discriminate|].
    destruct (invite pid pc) as [[|] c]; [|discriminate].
    exact H.
Qed.

(** What holds of the empty action.  In every result the pipeline returns,
    the action is empty exactly when no message send was attempted, which
    is exactly when the username could not be extracted or the resolver
    reported a reason that [if error:] sees, a text that is not empty; the
    status is then [Failed] and the error is the extraction text or the
    resolver's reason. *)
Theorem no_action_iff_no_send linkedin_url mt ct personalize sends r :
  process linkedin_url mt ct personalize = (sends, Returns r) ->
  (action r = None <-> send_attempted sends = false) /\
  (action r = None <->
     extract_linkedin_username (netloc_ok env) linkedin_url = None \/
     exists (user : text) (pid : pyval) (reason : text),
       extract_linkedin_username (netloc_ok env) linkedin_url = Some user /\
       resolve user = Returns (pid, Some reason) /\ reason <> []) /\
  (extract_linkedin_username (netloc_ok env) linkedin_url = None ->
     status r = Some Failed /\
     error r = Some (lit "Could not extract username from URL: " ++ shown linkedin_url)) /\
  (forall (user : text) (pid : pyval) (reason : text),
      extract_linkedin_username (netloc_ok env) linkedin_url = Some user ->
      resolve user = Returns (pid, Some reason) -> reason <> [] ->
      status r = Some Failed /\ error r = Some reason).
Proof.
  intros Hrun.
  destruct (process_returns _ _ _ _ _ _ Hrun)
    as [(Hu & -> & ->) | [(user & pid & err & Hu & Hr & He & Hs & ->)
                         | (user & pid & err & calls & staged & pm & pc
                            & Hu & Hr & He & Hp)]].
  - simpl. split; [tauto|]. split; [tauto|]. split; [tauto|].
    intros u p q E. congruence.
  - simpl. destruct (error_set_true err He) as (reason & -> & Hne).
    split; [tauto|]. split; [|split].
    + split; [|reflexivity]. intros _. right. exists user, pid, reason. auto.
    + intros E. congruence.
    + intros u p q E Hq _. rewrite Hu in E. injection E as <-.
      rewrite Hr in Hq. injection Hq as <- <-. auto.
  - destruct (process_send_stage _ mt ct personalize _ _ _ _ _ _ _ Hu Hr He Hp)
      as (sends' & r' & Hrun' & Hs & _ & _ & H).
    rewrite Hrun in Hrun'. injection Hrun' as <- <-.
    assert (Ha : action r <> None).
    { destruct (message pid pm) as [[|] m]; [destruct H as (-> & _); discriminate|].
      destruct (invite pid pc) as [[|] c]; destruct H as (-> & _); discriminate. }
    assert (Hno : forall (u : text) (p : pyval) (q : text),
               extract_linkedin_username (netloc_ok env) linkedin_url = Some u ->
               resolve u = Returns (p, Some q) -> q <> [] -> False).
    { intros u p q E Hq Hne. rewrite Hu in E. injection E as <-.
      rewrite Hr in Hq. injection Hq as <- ->.
      destruct q; [now apply Hne | discriminate He]. }
    split; [|split; [|split]].
    + rewrite Hs. split; [contradiction | discriminate].
    + split; [contradiction|].
      intros [E | (u & p & q & E & Hq & Hne)]; [congruence|].
      destruct (Hno u p q E Hq Hne).
    + intros E. congruence.
    + intros u p q E Hq Hne. destruct (Hno u p q E Hq Hne).
Qed.

(** The generic label is what [extract_job_title] answers when no title is
    to be had. *)
Lemma extract_job_title_default user :
  title_unavailable
    (job_title_get env {| get_url := users_url dsn user; get_api_key := api_key;
                          get_account_id := account_id |}) = true ->
  extract_job_title env api_key dsn account_id user = PyStr professional.
Proof.
  unfold title_unavailable, extract_job_title, raise_for_status.
  destruct (job_title_get env _) as [r|e]; [|reflexivity].
  destruct (response_ok r); cbn [negb orb]; [|reflexivity].
  destruct (body r) as [data|msg]; [|reflexivity].
  destruct data as [| | | | |items|entries]; try reflexivity.
  unfold experience_title, title_from.
  set (headline := dict_get (lit "headline") entries (PyStr [])).
  set (experience := dict_get (lit "experience") entries (PyList [])).
  intros H.
  assert (Hh : truthy headline = false).
  { destruct (truthy headline); [|reflexivity].
    destruct experience as [| | | | |[|[| | | | | |job] rest]|]; try discriminate H.
    destruct (dict_has (lit "title") job); discriminate H. }
  rewrite Hh.
  destruct experience as [|[|]|z|q|[|c t]|[|[| | | |t|l|job] rest]|[|]];
    cbn [truthy truthy_text]; try reflexivity.
  - now destruct (negb (z =? 0)%Z).
  - now destruct (negb (Qeq_bool q 0)).
  - now destruct (occurs (lit "title") [c]).
  - now destruct (occurs (lit "title") t).
  - now destruct (existsb (is_str (lit "title")) l).
  - destruct (dict_has (lit "title") job); [discriminate H | reflexivity].
Qed.

(** C9 (as amended).  In a result of a run with personalization that
    reached the send stage, the job title is a string, and the generic label
    when no title is available.  A run without personalization, or one that
    stopped before the send stage, leaves the job title empty. *)
Theorem job_title_defaults linkedin_url mt ct personalize sends r :
  process linkedin_url mt ct personalize = (sends, Returns r) ->
  (personalize = true -> send_attempted sends = true ->
   exists user title,
     username r = Some user /\ job_title r = PyStr title /\
     (title_unavailable
        (job_title_get env {| get_url := users_url dsn user; get_api_key := api_key;
                              get_account_id := account_id |}) = true ->
      title = professional)) /\
  (personalize = false \/ send_attempted sends = false -> job_title r = PyNone).
Proof.
  intros Hrun.
  destruct (process_returns _ _ _ _ _ _ Hrun)
    as [(Hu & -> & ->) | [(user & pid & err & Hu & Hr & He & Hs & ->)
                         | (user & pid & err & calls & staged & pm & pc
                            & Hu & Hr & He & Hp)]].
  - simpl. split; [discriminate | reflexivity].
  - simpl. split; [congruence | reflexivity].
  - destruct (process_send_stage _ mt ct personalize _ _ _ _ _ _ _ Hu Hr He Hp)
      as (sends' & r' & Hrun' & Hs & Hn & Ht & _).
    rewrite Hrun in Hrun'. injection Hrun' as <- <-.
    destruct (prepare_result _ _ _ _ _ _ _ _ _ Hp) as (_ & _ & _ & Hj).
    split.
    + intros -> _. destruct Hj as (title & Hx & Hj).
      exists user, title. split; [exact Hn|]. split; [congruence|].
      intros U. rewrite (extract_job_title_default user U) in Hx. congruence.
    + intros [-> | E]; [|congruence]. rewrite Ht, Hj. reflexivity.
Qed.

End PipelineFacts.

(** C5 at answers the directory can give.  When the profile lookup comes
    back with status 200 and a JSON array as body, [data.get] raises
    [AttributeError], which [get_user_provider_id] does not catch: the
    exception leaves [process_linkedin_profile], and the batch loop stops
    without a result list although a second profile was waiting.  When the
    most recent position has a null title, [extract_job_title] returns
    [None] and [str.replace] raises [TypeError]. *)
Theorem exceptions_leave_the_pipeline :
  Scenario.run Scenario.array_body Scenario.bob true
  = ([ResolverGet {| get_url := lit "https://api.unipile.com/api/v1/users/bob";
                     get_api_key := lit "key"; get_account_id := lit "acct" |}],
     Raises AttributeError) /\
  process_batch Scenario.array_body (lit "key") (lit "api.unipile.com") (lit "acct")
    [Scenario.bob; Scenario.ann] Scenario.message_template Scenario.connection_template
    true
  = Raises AttributeError /\
  snd (Scenario.run Scenario.null_title Scenario.bob true) = Raises TypeError.
Proof. repeat split; vm_compute; reflexivity. Qed.


(** C9 (as claimed) fails: with personalization switched off a message is
    delivered and the result carries no job title. *)
Lemma delivered_without_job_title :
  exists sends r,
    Scenario.run Scenario.connected Scenario.bob false = (sends, Returns r) /\
    status r = Some Success /\ job_title r = PyNone.
Proof. eexists. eexists. vm_compute. repeat split. Qed.

(** ** Personalization *)

Lemma starts_with_app p s : starts_with p (p ++ s) = true.
Proof.
  induction p as [|c p IH]; simpl; [reflexivity|].
  rewrite IH. unfold chr_eqb. now rewrite Ascii.eqb_refl.
Qed.

(** The characters of a matched occurrence are passed over. *)
Lemma replace_skip old new pre s :
  replace_from old new (length pre) (pre ++ s) = replace_from old new 0 s.
Proof. induction pre as [|c pre IH]; simpl; [reflexivity | exact IH]. Qed.

Lemma replace_match old new s :
  old <> [] -> replace old new (old ++ s) = new ++ replace old new s.
Proof.
  intros Hne. unfold replace. destruct old as [|c old']; [congruence|].
  cbn [app replace_from].
  assert (Hs : starts_with (c :: old') (c :: old' ++ s) = true)
    by exact (starts_with_app (c :: old') s).
  rewrite Hs. f_equal.
  replace (length (c :: old') - 1)%nat with (length old') by (simpl; lia).
  apply replace_skip.
Qed.

Lemma replace_pass old new c s :
  starts_with old (c :: s) = false ->
  replace old new (c :: s) = c :: replace old new s.
Proof. intros H. unfold replace. cbn [replace_from]. now rewrite H. Qed.

(** Text without the first character of [old] is copied. *)
Lemma replace_inert old new c0 old' l s :
  old = c0 :: old' -> has_chr c0 l = false ->
  replace old new (l ++ s) = l ++ replace old new s.
Proof.
  intros E. induction l as [|x l IH]; simpl; [reflexivity|].
  intros H. apply orb_false_iff in H. destruct H as [Hx Hl].
  rewrite replace_pass.
  - now rewrite IH.
  - rewrite E. simpl. now rewrite Hx.
Qed.

Lemma replace_absent old new s : occurs old s = false -> replace old new s = s.
Proof.
  induction s as [|c s IH]; [reflexivity|].
  simpl occurs. intros H. apply orb_false_iff in H. destruct H as [Hs Ho].
  rewrite replace_pass by exact Hs. now rewrite IH.
Qed.


Lemma template_of_cons t ts : template_of (t :: ts) = render t ++ template_of ts.
Proof. reflexivity. Qed.

Lemma tokens_name s : tokens (lit "{name}" ++ s) = Name :: tokens s.
Proof. reflexivity. Qed.

Lemma tokens_job s : tokens (lit "{job_title}" ++ s) = JobTitle :: tokens s.
Proof. reflexivity. Qed.

Lemma tokens_chr c s :
  starts_with (lit "{name}") (c :: s) = false ->
  starts_with (lit "{job_title}") (c :: s) = false ->
  tokens (c :: s) = Literal [c] :: tokens s.
Proof. intros N J. unfold tokens. cbn [read_from]. now rewrite N, J. Qed.

(** A text is empty, or begins with a placeholder, or with a character
    that begins none. *)
Lemma template_ind (P : text -> Prop) :
  P [] ->
  (forall s, P s -> P (lit "{name}" ++ s)) ->
  (forall s, P s -> P (lit "{job_title}" ++ s)) ->
  (forall c s, starts_with (lit "{name}") (c :: s) = false ->
               starts_with (lit "{job_title}") (c :: s) = false ->
               P s -> P (c :: s)) ->
  forall s, P s.
Proof.
  intros H0 Hn Hj Hc s.
  assert (G : forall n s, (length s <= n)%nat -> P s).
  { clear s. induction n as [|n IH]; intros s L.
    - destruct s; [exact H0 | simpl in L; lia].
    - destruct s as [|c s]; [exact H0|].
      destruct (starts_with (lit "{name}") (c :: s)) eqn:N.
      + rewrite (starts_with_split _ _ N). apply Hn, IH.
        rewrite length_skipn. simpl in *. lia.
      + destruct (starts_with (lit "{job_title}") (c :: s)) eqn:J.
        * rewrite (starts_with_split _ _ J). apply Hj, IH.
          rewrite length_skipn. simpl in *. lia.
        * apply Hc; [exact N | exact J |]. apply IH. simpl in L. lia. }
  apply (G (length s)). lia.
Qed.

(** Every text is the template it is read as. *)
Lemma tokens_round_trip s : template_of (tokens s) = s.
Proof.
  induction s as [|s IH|s IH|c s N J IH] using template_ind.
  - reflexivity.
  - rewrite tokens_name, template_of_cons, IH. reflexivity.
  - rewrite tokens_job, template_of_cons, IH. reflexivity.
  - rewrite (tokens_chr c s N J), template_of_cons, IH. reflexivity.
Qed.

(** The first pass replaces the name placeholders and nothing else. *)
Lemma first_pass name s :
  replace (lit "{name}") name s = template_of (map (name_to name) (tokens s)).
Proof.
  induction s as [|s IH|s IH|c s N J IH] using template_ind.
  - reflexivity.
  - rewrite tokens_name. cbn [map name_to]. rewrite template_of_cons. cbn [render].
    rewrite replace_match by discriminate. now rewrite IH.
  - rewrite tokens_job. cbn [map name_to]. rewrite template_of_cons. cbn [render].
    change (lit "{job_title}" ++ s) with ("{"%char :: lit "job_title}" ++ s).
    rewrite replace_pass by reflexivity.
    rewrite (replace_inert (lit "{name}") name "{"%char (lit "name}") (lit "job_title}")
               _ eq_refl eq_refl).
    now rewrite IH.
  - rewrite (tokens_chr c s N J). cbn [map name_to]. rewrite template_of_cons.
    cbn [render]. rewrite replace_pass by exact N. now rewrite IH.
Qed.

(** What the first pass puts in cannot complete a placeholder: a piece of
    [job_title}] read after the first pass was there before it. *)
Lemma named_prefix name p :
  starts_clear name = true ->
  (forall c, In c p -> has_chr c (lit "job_title}") = true) ->
  forall s, starts_with p (template_of (map (name_to name) (tokens s))) = true ->
            starts_with p s = true.
Proof.
  intros name_clear.
  induction p as [|x p IH]; intros Hp s; [reflexivity|].
  assert (Hx : has_chr x (lit "job_title}") = true) by (apply Hp; now left).
  assert (Hp' : forall c, In c p -> has_chr c (lit "job_title}") = true)
    by (intros c Hc; apply Hp; now right).
  destruct s as [|c s]; [discriminate|].
  destruct (starts_with (lit "{name}") (c :: s)) eqn:N.
  - rewrite (starts_with_split _ _ N), tokens_name. cbn [map name_to].
    rewrite template_of_cons. cbn [render].
    unfold starts_clear in name_clear. destruct name as [|c0 rest]; [discriminate|].
    cbn [app starts_with]. intros H. apply andb_true_iff in H. destruct H as [E _].
    apply chr_eqb_eq in E. subst c0. rewrite Hx in name_clear. discriminate.
  - destruct (starts_with (lit "{job_title}") (c :: s)) eqn:J.
    + rewrite (starts_with_split _ _ J), tokens_job. cbn [map name_to].
      rewrite template_of_cons. cbn [render].
      change (lit "{job_title}") with ("{"%char :: lit "job_title}").
      cbn [app starts_with]. intros H. apply andb_true_iff in H. destruct H as [E _].
      apply chr_eqb_eq in E. subst x. discriminate.
    + rewrite (tokens_chr c s N J). cbn [map name_to]. rewrite template_of_cons.
      cbn [render app starts_with]. intros H. apply andb_true_iff in H.
      destruct H as [E H]. rewrite E. cbn [andb]. now apply IH.
Qed.

Lemma half_open_app pre s : half_open (pre ++ s) = false -> half_open s = false.
Proof.
  induction pre as [|c pre IH]; [auto|].
  cbn [app half_open]. intros H. apply orb_false_iff in H. now apply IH.
Qed.

(** Where no name placeholder follows, a piece of [job_title}] read after
    the first pass was there before it. *)
Lemma named_prefix_closed name p :
  has_chr "{"%char p = false ->
  forall s, opens_name p s = false ->
            starts_with p (template_of (map (name_to name) (tokens s))) = true ->
            starts_with p s = true.
Proof.
  induction p as [|x p IH]; intros Hp s; [reflexivity|].
  cbn [has_chr existsb] in Hp. apply orb_false_iff in Hp. destruct Hp as [Hx Hp].
  destruct s as [|c s]; [discriminate|].
  cbn [opens_name]. intros H. apply orb_false_iff in H. destruct H as [N O].
  destruct (starts_with (lit "{job_title}") (c :: s)) eqn:J.
  - rewrite (starts_with_split _ _ J), tokens_job. cbn [map name_to].
    rewrite template_of_cons. cbn [render].
    change (lit "{job_title}") with ("{"%char :: lit "job_title}").
    cbn [app starts_with]. intros H. apply andb_true_iff in H. destruct H as [E _].
    unfold chr_eqb in *. rewrite Ascii.eqb_sym in E. congruence.
  - rewrite (tokens_chr c s N J). cbn [map name_to]. rewrite template_of_cons.
    cbn [render app starts_with]. intros H. apply andb_true_iff in H.
    destruct H as [E H]. rewrite E in *. cbn [andb] in *. now apply IH.
Qed.

(** The second pass replaces the job-title placeholders of the template and
    nothing else, when the name brings no brace and either cannot complete
    a placeholder or finds no brace to complete. *)
Lemma second_pass name job s :
  has_chr "{"%char name = false ->
  starts_clear name = true \/ half_open s = false ->
  replace (lit "{job_title}") job (template_of (map (name_to name) (tokens s)))
  = filled name job (tokens s).
Proof.
  intros Hn. unfold filled.
  induction s as [|s IH|s IH|c s N J IH] using template_ind; intros Hs.
  - reflexivity.
  - assert (Hs' : starts_clear name = true \/ half_open s = false).
    { destruct Hs as [Hs|Hs]; [now left | right]. exact (half_open_app _ _ Hs). }
    rewrite tokens_name. cbn [map name_to fill concat].
    rewrite template_of_cons. cbn [render].
    rewrite (replace_inert (lit "{job_title}") job "{"%char (lit "job_title}") name
               _ eq_refl Hn).
    now rewrite IH.
  - assert (Hs' : starts_clear name = true \/ half_open s = false).
    { destruct Hs as [Hs|Hs]; [now left | right]. exact (half_open_app _ _ Hs). }
    rewrite tokens_job. cbn [map name_to fill concat].
    rewrite template_of_cons. cbn [render].
    rewrite replace_match by discriminate. now rewrite IH.
  - assert (Hs' : starts_clear name = true \/ half_open s = false).
    { destruct Hs as [Hs|Hs]; [now left | right].
      cbn [half_open] in Hs. apply orb_false_iff in Hs. tauto. }
    rewrite (tokens_chr c s N J). cbn [map name_to fill concat].
    rewrite template_of_cons. cbn [render app].
    rewrite replace_pass; [now rewrite IH|].
    destruct (chr_eqb "{"%char c) eqn:E.
    + destruct (starts_with (lit "{job_title}")
                  (c :: template_of (map (name_to name) (tokens s)))) eqn:F;
        [|reflexivity].
      assert (P : starts_with (lit "job_title}") s = true).
      { change (lit "{job_title}") with ("{"%char :: lit "job_title}") in F.
        cbn [starts_with] in F. rewrite E in F. cbn [andb] in F.
        destruct Hs as [Hs|Hs].
        - apply (named_prefix name (lit "job_title}") Hs); [|exact F].
          intros x Hx. apply existsb_exists. exists x. split; [exact Hx|].
          apply chr_eqb_eq. reflexivity.
        - apply (named_prefix_closed name (lit "job_title}") eq_refl); [|exact F].
          cbn [half_open] in Hs. apply orb_false_iff in Hs. destruct Hs as [Hs _].
          rewrite E, J in Hs. exact Hs. }
      change (lit "{job_title}") with ("{"%char :: lit "job_title}") in J.
      cbn [starts_with] in J. rewrite E, P in J. discriminate J.
    + change (lit "{job_title}") with ("{"%char :: lit "job_title}").
      cbn [starts_with]. now rewrite E.
Qed.

(** Why the name is asked not to complete a placeholder: the second pass
    reads the text the first one wrote, so a name can close a brace that
    the template left open. *)
Lemma name_can_complete_a_placeholder :
  personalize_text (lit "{job{name}") (lit "_title}") (lit "Engineer") = lit "Engineer" /\
  filled (capitalize (lit "_title}")) (lit "Engineer") (tokens (lit "{job{name}"))
  = lit "{job_title}".
Proof. split; reflexivity. Qed.

(** C3 (as amended).  Every text is a template: its occurrences of
    [{name}] and [{job_title}] are placeholders, every other character is
    literal text.  [personalize_text] puts the capitalized username (first
    character in title case, the others lower-cased) for every [{name}] and
    the job title for every [{job_title}] of the template and leaves the
    literal text, other braces included, as it is.  This holds when the
    capitalized username holds no opening brace and either begins with a
    character that is none of [job_title}] or meets a template without a
    brace for it to complete ([half_open]).  A template in which neither
    placeholder occurs comes back unchanged, whatever the username. *)
Theorem personalize_fills_placeholders :
  forall template user job,
    template_of (tokens template) = template /\
    (title_in_text user = true ->
     has_chr "{"%char (capitalize user) = false ->
     starts_clear (capitalize user) = true \/ half_open template = false ->
     personalize_text template user job
     = filled (capitalize user) job (tokens template)) /\
    (occurs (lit "{name}") template = false ->
     occurs (lit "{job_title}") template = false ->
     personalize_text template user job = template).
Proof.
  intros template user job. split; [apply tokens_round_trip|].
  unfold personalize_text. split.
  - intros _ Hn Hs. rewrite first_pass. now apply second_pass.
  - intros Hn Hj.
    rewrite (replace_absent (lit "{name}") (capitalize user) template Hn).
    apply replace_absent. exact Hj.
Qed.

(** C3 (as claimed) fails: the characters after the first one do not stay
    as they are, [capitalize] lower-cases them. *)
Lemma rest_of_name_is_lowered :
  personalize_text (template_of [Literal (lit "Hi "); Name]) (lit "mcAdam") (lit "Engineer")
  <> filled (first_upper (lit "mcAdam")) (lit "Engineer") [Literal (lit "Hi "); Name].
Proof. vm_compute. discriminate. Qed.

Lemma personalize_fills_placeholders_witness :
  personalize_text (lit "{x} Hi {name}, you're a {job_title}!") (lit "bob") (lit "Engineer")
  = lit "{x} Hi Bob, you're a Engineer!" /\
  personalize_text (lit "{x} Hi {name}") (lit "_bob") (lit "Engineer")
  = lit "{x} Hi _bob" /\
  personalize_text (lit "{Name} and {job title} stay") (lit "bob") (lit "Engineer")
  = lit "{Name} and {job title} stay".
Proof.
  destruct (personalize_fills_placeholders (lit "{x} Hi {name}, you're a {job_title}!")
              (lit "bob") (lit "Engineer")) as (_ & F & _).
  destruct (personalize_fills_placeholders (lit "{x} Hi {name}")
              (lit "_bob") (lit "Engineer")) as (_ & G & _).
  destruct (personalize_fills_placeholders (lit "{Name} and {job title} stay")
              (lit "bob") (lit "Engineer")) as (_ & _ & P).
  split; [|split].
  - exact (eq_trans (F eq_refl eq_refl (or_introl eq_refl)) eq_refl).
  - exact (eq_trans (G eq_refl eq_refl (or_intror eq_refl)) eq_refl).
  - apply P; reflexivity.
Defined.

(** ** The pipeline on concrete answers of the directory *)

Lemma delivery_outcomes_witness :
  exists sends r,
    Scenario.run Scenario.not_connected Scenario.bob true = (sends, Returns r) /\
    action r = Some ConnectionRequest /\ status r = Some Success.
Proof.
  destruct (delivery_outcomes Scenario.not_connected
              (lit "key") (lit "api.unipile.com") (lit "acct")
              Scenario.bob Scenario.message_template Scenario.connection_template true
              (lit "bob") (PyStr (lit "p_88")) None
              [JobTitleGet {| get_url := lit "https://api.unipile.com/api/v1/users/bob";
                              get_api_key := lit "key"; get_account_id := lit "acct" |}]
              (set_job_title (PyStr (lit "Engineer"))
                 (set_provider_id (PyStr (lit "p_88"))
                    (set_username (lit "bob") (fresh_result Scenario.bob))))
              (personalize_text Scenario.message_template (lit "bob") (lit "Engineer"))
              (personalize_text Scenario.connection_template (lit "bob") (lit "Engineer"))
              eq_refl eq_refl eq_refl eq_refl) as (sends & r & Hrun & H).
  exists sends, r. split; [exact Hrun | exact H].
Defined.

Lemma no_action_iff_no_send_witness :
  exists sends r,
    Scenario.run Scenario.unknown_profile Scenario.bob true = (sends, Returns r) /\
    action r = None /\ send_attempted sends = false /\ status r = Some Failed /\
    error r = Some (lit "Could not find provider_id in the response").
Proof.
  eexists. eexists. split; [reflexivity|].
  destruct (no_action_iff_no_send Scenario.unknown_profile
              (lit "key") (lit "api.unipile.com") (lit "acct")
              Scenario.bob Scenario.message_template Scenario.connection_template true
              _ _ eq_refl) as (Hsend & Hwhy & _ & Hreason).
  assert (Hr : get_user_provider_id Scenario.unknown_profile
                 (lit "key") (lit "api.unipile.com") (lit "acct") (lit "bob")
               = Returns (PyNone, Some (lit "Could not find provider_id in the response")))
    by reflexivity.
  assert (Hne : lit "Could not find provider_id in the response" <> []) by discriminate.
  pose proof (proj2 Hwhy
                (or_intror
                   (ex_intro _ (lit "bob")
                      (ex_intro _ PyNone
                         (ex_intro _ _ (conj eq_refl (conj Hr Hne))))))) as Ha.
  destruct (Hreason (lit "bob") PyNone _ eq_refl Hr Hne) as [Hs He].
  split; [exact Ha|]. split; [exact (proj1 Hsend Ha)|]. split; [exact Hs | exact He].
Defined.

Lemma job_title_defaults_witness :
  exists sends r,
    Scenario.run Scenario.title_refused Scenario.bob true = (sends, Returns r) /\
    job_title r = PyStr (lit "Professional").
Proof.
  eexists. eexists. split; [reflexivity|].
  destruct (job_title_defaults Scenario.title_refused
              (lit "key") (lit "api.unipile.com") (lit "acct")
              Scenario.bob Scenario.message_template Scenario.connection_template true
              _ _ eq_refl) as (H & _).
  destruct (H eq_refl eq_refl) as (user & title & Hu & Ht & Hd).
  injection Hu as <-. rewrite Ht. f_equal. apply Hd. reflexivity.
Defined.

Lemma error_iff_failed_witness :
  exists sends r,
    Scenario.run Scenario.not_connected Scenario.bob true = (sends, Returns r) /\
    status r = Some Success /\ error r = None.
Proof.
  eexists. eexists. split; [reflexivity|].
  destruct (error_iff_failed Scenario.not_connected
              (lit "key") (lit "api.unipile.com") (lit "acct")
              Scenario.bob Scenario.message_template Scenario.connection_template true
              _ _ eq_refl) as (_ & H).
  destruct (H (lit "bob") (PyStr (lit "p_88")) None
              [JobTitleGet {| get_url := lit "https://api.unipile.com/api/v1/users/bob";
                              get_api_key := lit "key"; get_account_id := lit "acct" |}]
              (set_job_title (PyStr (lit "Engineer"))
                 (set_provider_id (PyStr (lit "p_88"))
                    (set_username (lit "bob") (fresh_result Scenario.bob))))
              (personalize_text Scenario.message_template (lit "bob") (lit "Engineer"))
              (personalize_text Scenario.connection_template (lit "bob") (lit "Engineer"))
              eq_refl eq_refl eq_refl eq_refl eq_refl eq_refl) as (_ & Hs & He).
  split; [exact Hs | exact He].
Defined.

(** * Further properties of the code *)

Import Batch Shape.

(** ** The calls to the directory *)

Section CallFacts.

Variable env : environment.
Variables api_key dsn account_id : text.

Local Abbreviation resolve := (get_user_provider_id env api_key dsn account_id).
Local Abbreviation prepare := (personalize_step env api_key dsn account_id).
Local Abbreviation message := (send_message env api_key dsn account_id).
Local Abbreviation invite := (send_connection_request env api_key dsn account_id).
Local Abbreviation process := (process_linkedin_profile env api_key dsn account_id).

(** [get_user_provider_id] answers with a provider id or with a reason,
    never with both: a returned id is truthy and comes without a reason, and
    a reason comes with [None] as id. *)
Theorem provider_id_or_reason user pid err :
  resolve user = Returns (pid, err) ->
  (err = None /\ truthy pid = true) \/ (pid = PyNone /\ exists reason, err = Some reason).
Proof.
  unfold get_user_provider_id.
  destruct (resolver_get env _) as [r|e].
  2:{ intros [= <- <-]. right. eauto. }
  destruct (raise_for_status r) as [e|].
  { intros [= <- <-]. right. eauto. }
  destruct (body r) as [data|msg].
  2:{ intros [= <- <-]. right. eauto. }
  destruct data as [| | | | | |entries]; try discriminate.
  destruct (truthy (dict_get (lit "provider_id") entries PyNone)) eqn:T.
  - intros [= <- <-]. left. auto.
  - intros [= <- <-]. right. eauto.
Qed.

(** [send_message] reports success exactly when the directory answers the
    POST with a status outside 400..599; its success text is fixed. *)
Theorem message_sent_iff_accepted pid text_ :
  (fst (message pid text_) = true <->
   exists r, chats_post env (chat_of api_key dsn account_id pid text_) = Responds r /\
             response_ok r = true) /\
  (fst (message pid text_) = true ->
   snd (message pid text_) = lit "Message sent successfully").
Proof.
  unfold send_message, raise_for_status.
  destruct (chats_post env _) as [r|e].
  - destruct (response_ok r) eqn:O.
    + simpl. split; [|reflexivity]. split; [eauto | reflexivity].
    + unfold truthy_response. simpl. rewrite O. simpl.
      split; [|discriminate]. split; [discriminate|].
      intros (r' & [= <-] & O'). congruence.
  - assert (N : forall r' : response,
               Fails e = Responds r' /\ response_ok r' = true -> False)
      by (intros r' [E _]; discriminate E).
    destruct (truthy_response e) as [r|];
      [destruct ((status_code r =? 400)%Z || (status_code r =? 403)%Z)|];
      simpl; (split; [|discriminate]); (split; [discriminate|]);
      intros (r' & H); destruct (N r' H).
Qed.

(** An error status never reaches the branch of [send_message] that was
    written for it: a response with a status in 400..599 is falsy, so for
    every such answer, 400 and 403 included, the failure text is the
    generic one built from [str(e)], without the response body. *)
Theorem refused_message_text pid text_ r :
  chats_post env (chat_of api_key dsn account_id pid text_) = Responds r ->
  response_ok r = false ->
  message pid text_ = (false, lit "Error sending message: " ++ http_error_msg r).
Proof.
  intros E O. unfold send_message, raise_for_status, truthy_response.
  rewrite E, O. simpl. rewrite O. reflexivity.
Qed.

(** The same holds for the invitation and for the resolver: the reason
    they give for an error status is built from [str(e)] alone. *)
Theorem error_status_reasons user pid text_ :
  (forall r,
      invite_post env (invite_of api_key dsn account_id pid text_) = Responds r ->
      response_ok r = false ->
      invite pid text_
      = (false, lit "Error sending connection request: " ++ http_error_msg r)) /\
  (forall r,
      resolver_get env {| get_url := users_url dsn user; get_api_key := api_key;
                          get_account_id := account_id |} = Responds r ->
      response_ok r = false ->
      resolve user = Returns (PyNone, Some (http_error_msg r))).
Proof.
  split; intros r E O.
  - unfold send_connection_request, raise_for_status, error_msg, truthy_response.
    rewrite E, O. simpl. rewrite O. reflexivity.
  - unfold get_user_provider_id, raise_for_status, error_msg, truthy_response.
    rewrite E, O. simpl. rewrite O. reflexivity.
Qed.

Lemma prepare_kinds personalize user mt ct result :
  map kind_of (fst (prepare personalize user mt ct result))
  = if personalize then [ToJobTitle] else [].
Proof. unfold personalize_step. now destruct personalize. Qed.

Lemma deliver_kinds result pid pm pc :
  map kind_of (fst (deliver env api_key dsn account_id result pid pm pc))
  = if fst (message pid pm) then [ToChats] else [ToChats; ToInvite].
Proof.
  unfold deliver. destruct (message pid pm) as [[|] m]; [reflexivity|].
  now destruct (invite pid pc) as [[|] c].
Qed.

(** One profile causes at most four calls, each endpoint at most once and
    in one order: lookup, job title, message, invitation.  The job title is
    only asked for with personalization on, and the invitation only follows
    a message; whether the run returns or raises makes no difference. *)
Theorem calls_follow_one_order linkedin_url mt ct personalize :
  let kinds := map kind_of (fst (process linkedin_url mt ct personalize)) in
  In kinds call_orders /\
  (In ToJobTitle kinds -> personalize = true).
Proof.
  unfold process_linkedin_profile.
  destruct (extract_linkedin_username (netloc_ok env) linkedin_url) as [user|];
    [|simpl; intuition discriminate].
  destruct (resolve user) as [[pid err]|e]; [|simpl; intuition discriminate].
  destruct (error_set err); [simpl; intuition discriminate|].
  pose proof (prepare_kinds personalize user mt ct
                (set_provider_id pid (set_username user (fresh_result linkedin_url))))
    as Hk.
  destruct (prepare personalize user mt ct _) as [calls [[[staged pm] pc]|e]];
    cbn [fst] in *.
  - pose proof (deliver_kinds staged pid pm pc) as Hd.
    destruct (deliver env api_key dsn account_id staged pid pm pc) as [sends r].
    cbn [fst map] in *. rewrite map_app, Hk, Hd.
    destruct personalize, (fst (message pid pm)); simpl; intuition discriminate.
  - cbn [map]. rewrite Hk. destruct personalize; simpl; intuition discriminate.
Qed.

(** With personalization off the templates are sent as they are: the
    message POST carries the message template and the invitation the
    connection template, and no job title is asked for. *)
Theorem templates_sent_verbatim linkedin_url mt ct :
  forall call,
    In call (fst (process_linkedin_profile env api_key dsn account_id
                    linkedin_url mt ct false)) ->
    match call with
    | ResolverGet _ => True
    | JobTitleGet _ => False
    | ChatsPost request => chat_text request = mt
    | InvitePost request => invite_message request = ct
    end.
Proof.
  unfold process_linkedin_profile.
  destruct (extract_linkedin_username (netloc_ok env) linkedin_url) as [user|];
    [|intros call []].
  destruct (resolve user) as [[pid err]|e].
  2:{ intros call [<-|[]]. exact I. }
  destruct (error_set err).
  { intros call [<-|[]]. exact I. }
  unfold personalize_step, deliver.
  destruct (message pid mt) as [[|] m].
  - intros call [<-|[<-|[]]]; [exact I | reflexivity].
  - destruct (invite pid ct) as [[|] c];
      intros call [<-|[<-|[<-|[]]]]; solve [exact I | reflexivity].
Qed.

(** Answers the pipeline does not survive.  A profile lookup answered with
    a good status and a JSON body that is no object (an array, a string, a
    number, [null]) makes [data.get] raise [AttributeError]: it leaves
    [process_linkedin_profile] right after the lookup, whatever the
    personalization.  With personalization on, a job title that is no
    string makes [str.replace] raise [TypeError]: it leaves after the two
    lookups.  In both cases nothing is sent and no result is returned. *)
Theorem malformed_answers_raise linkedin_url user mt ct :
  extract_linkedin_username (netloc_ok env) linkedin_url = Some user ->
  let request := {| get_url := users_url dsn user; get_api_key := api_key;
                    get_account_id := account_id |} in
  (forall r data personalize,
      resolver_get env request = Responds r ->
      response_ok r = true -> body r = JsonValue data ->
      (forall entries, data <> PyDict entries) ->
      process_linkedin_profile env api_key dsn account_id linkedin_url mt ct personalize
      = ([ResolverGet request], Raises AttributeError)) /\
  (forall pid err,
      get_user_provider_id env api_key dsn account_id user = Returns (pid, err) ->
      error_set err = false ->
      (forall title, extract_job_title env api_key dsn account_id user <> PyStr title) ->
      process_linkedin_profile env api_key dsn account_id linkedin_url mt ct true
      = ([ResolverGet request; JobTitleGet request], Raises TypeError)).
Proof.
  intros Hu request. unfold process_linkedin_profile. rewrite Hu. split.
  - intros r data personalize G O B D.
    unfold get_user_provider_id, raise_for_status. fold request. rewrite G, O, B.
    destruct data as [| | | | | |entries]; try reflexivity.
    destruct (D entries eq_refl).
  - intros pid err R E T. rewrite R, E. unfold personalize_step. fold request.
    destruct (extract_job_title env api_key dsn account_id user) as [| | | |title| |];
      try reflexivity.
    destruct (T title eq_refl).
Qed.

(** A returned result echoes the URL it was given and the username taken
    from it, always has a status, never pairs the message action with a
    failure nor a success with no action; without an action it has no
    provider id either. *)
Theorem result_is_well_formed linkedin_url mt ct personalize calls r :
  process linkedin_url mt ct personalize = (calls, Returns r) ->
  url r = linkedin_url /\
  username r = extract_linkedin_username (netloc_ok env) linkedin_url /\
  status r <> None /\
  (action r = Some Message -> status r = Some Success) /\
  (status r = Some Success -> action r <> None) /\
  (action r = None -> provider_id r = PyNone).
Proof.
  unfold process_linkedin_profile.
  destruct (extract_linkedin_username (netloc_ok env) linkedin_url) as [user|].
  2:{ intros [= <- <-]. simpl. repeat split; try discriminate. }
  destruct (resolve user) as [[pid err]|e]; [|discriminate].
  destruct (error_set err).
  { intros [= <- <-]. simpl. repeat split; try discriminate. }
  unfold personalize_step, deliver.
  destruct personalize.
  - destruct (extract_job_title env api_key dsn account_id user); try discriminate.
    destruct (message pid _) as [[|] m].
    + intros [= <- <-]. simpl. repeat split; try discriminate.
    + destruct (invite pid _) as [[|] c]; intros [= <- <-]; simpl;
        repeat split; discriminate.
  - destruct (message pid _) as [[|] m].
    + intros [= <- <-]. simpl. repeat split; try discriminate.
    + destruct (invite pid _) as [[|] c]; intros [= <- <-]; simpl;
        repeat split; discriminate.
Qed.

End CallFacts.

Lemma provider_id_or_reason_witness :
  truthy (PyStr (lit "p_88")) = true.
Proof.
  destruct (provider_id_or_reason Scenario.connected (lit "key") (lit "api.unipile.com")
              (lit "acct") (lit "bob") (PyStr (lit "p_88")) None eq_refl)
    as [[_ T] | [E _]]; [exact T | discriminate E].
Defined.

Lemma templates_sent_verbatim_witness :
  chat_text (chat_of (lit "key") (lit "api.unipile.com") (lit "acct")
               (PyStr (lit "p_88")) Scenario.message_template)
  = Scenario.message_template.
Proof.
  exact (templates_sent_verbatim Scenario.connected (lit "key") (lit "api.unipile.com")
           (lit "acct") Scenario.bob Scenario.message_template
           Scenario.connection_template
           (ChatsPost (chat_of (lit "key") (lit "api.unipile.com") (lit "acct")
                         (PyStr (lit "p_88")) Scenario.message_template))
           (or_intror (or_introl eq_refl))).
Defined.

Lemma malformed_answers_raise_witness :
  Scenario.run Scenario.array_body Scenario.bob false
  = ([ResolverGet {| get_url := lit "https://api.unipile.com/api/v1/users/bob";
                     get_api_key := lit "key"; get_account_id := lit "acct" |}],
     Raises AttributeError) /\
  Scenario.run Scenario.null_title Scenario.bob true
  = ([ResolverGet {| get_url := lit "https://api.unipile.com/api/v1/users/bob";
                     get_api_key := lit "key"; get_account_id := lit "acct" |};
      JobTitleGet {| get_url := lit "https://api.unipile.com/api/v1/users/bob";
                     get_api_key := lit "key"; get_account_id := lit "acct" |}],
     Raises TypeError).
Proof.
  split.
  - destruct (malformed_answers_raise Scenario.array_body (lit "key")
                (lit "api.unipile.com") (lit "acct") Scenario.bob (lit "bob")
                Scenario.message_template Scenario.connection_template eq_refl)
      as [A _].
    apply (A _ (PyList []) false eq_refl eq_refl eq_refl). intros entries. discriminate.
  - destruct (malformed_answers_raise Scenario.null_title (lit "key")
                (lit "api.unipile.com") (lit "acct") Scenario.bob (lit "bob")
                Scenario.message_template Scenario.connection_template eq_refl)
      as [_ T].
    apply (T (PyStr (lit "p_88")) None eq_refl eq_refl). intros title. discriminate.
Defined.

Lemma result_is_well_formed_witness :
  exists calls r,
    Scenario.run Scenario.connected Scenario.bob true = (calls, Returns r) /\
    url r = Scenario.bob /\ status r <> None.
Proof.
  eexists. eexists. split; [reflexivity|].
  destruct (result_is_well_formed Scenario.connected (lit "key") (lit "api.unipile.com")
              (lit "acct") Scenario.bob Scenario.message_template
              Scenario.connection_template true _ _ eq_refl) as (U & _ & S & _).
  split; [exact U | exact S].
Defined.

(** ** The batch and its summary *)

Section BatchFacts.

Variable env : environment.
Variables api_key dsn account_id : text.
Variables message_text connection_text : text.
Variable personalize : bool.

Local Abbreviation run_one linkedin_url :=
  (process_linkedin_profile env api_key dsn account_id linkedin_url
     message_text connection_text personalize).
Local Abbreviation run_all linkedin_urls :=
  (process_batch env api_key dsn account_id linkedin_urls
     message_text connection_text personalize).

(** The batch returns a list exactly when every profile returns a result,
    and the list then holds these results, one per URL and in the order of
    the URLs. *)
Theorem batch_returns_results_in_order linkedin_urls results :
  process_batch env api_key dsn account_id linkedin_urls
    message_text connection_text personalize = Returns results <->
  Forall2 (fun linkedin_url r =>
             snd (process_linkedin_profile env api_key dsn account_id
                    linkedin_url message_text connection_text personalize)
             = Returns r)
          linkedin_urls results.
Proof.
  revert results. induction linkedin_urls as [|u urls IH]; intros results; simpl.
  - split.
    + intros [= <-]. constructor.
    + intros H. inversion H. reflexivity.
  - destruct (snd (run_one u)) as [r|e] eqn:E; simpl.
    + destruct (run_all urls) as [rs|e] eqn:B; simpl.
      * split.
        -- intros [= <-]. constructor; [exact E|]. now apply IH.
        -- intros H. inversion H as [|x y l l' Hx Hl]; subst.
           rewrite E in Hx. injection Hx as <-.
           apply IH in Hl. now injection Hl as <-.
      * split; [discriminate|].
        intros H. inversion H as [|x y l l' Hx Hl]; subst.
        apply IH in Hl. discriminate.
    + split; [discriminate|].
      intros H. inversion H as [|x y l l' Hx Hl]; subst.
      rewrite E in Hx. discriminate.
Qed.

Lemma batch_length linkedin_urls results :
  run_all linkedin_urls = Returns results -> length results = length linkedin_urls.
Proof.
  intros H. apply batch_returns_results_in_order in H.
  symmetry. exact (Forall2_length H).
Qed.

(** A success of the pipeline is a message or a connection request, never
    both. *)
Lemma success_splits linkedin_url r :
  snd (run_one linkedin_url) = Returns r ->
  is_success r = (is_message r && is_success r) || (is_connection r && is_success r).
Proof.
  intros H.
  destruct (run_one linkedin_url) as [calls o] eqn:E. simpl in H. subst o.
  destruct (result_is_well_formed env api_key dsn account_id linkedin_url
              message_text connection_text personalize calls r E)
    as (_ & _ & _ & _ & Hs & _).
  unfold is_success, is_message, is_connection.
  destruct (status r) as [[|]|]; try now destruct (action r) as [[|]|].
  destruct (action r) as [[|]|]; try reflexivity.
  now destruct (Hs eq_refl).
Qed.

Lemma count_split (p q1 q2 : outreach_result -> bool) results :
  Forall (fun r => p r = q1 r || q2 r) results ->
  Forall (fun r => q1 r && q2 r = false) results ->
  count p results = (count q1 results + count q2 results)%nat.
Proof.
  unfold count. induction 1 as [|r rs Hr Hrs IH]; intros Hx; [reflexivity|].
  inversion Hx as [|x l Hxr Hxs]; subst. specialize (IH Hxs).
  simpl. rewrite Hr.
  destruct (q1 r), (q2 r); simpl in *; try discriminate; lia.
Qed.

(** For the results of a batch the figures of the summary add up: the
    messages and the connection requests together are the successes, which
    are no more than the profiles processed, one per URL. *)
Theorem summary_adds_up linkedin_urls results :
  run_all linkedin_urls = Returns results ->
  let figures := summarise results in
  (message_count figures + connection_count figures = success_count figures)%nat /\
  (success_count figures <= total figures)%nat /\
  total figures = length linkedin_urls.
Proof.
  intros H. pose proof (batch_length _ _ H) as L.
  apply batch_returns_results_in_order in H. cbn [summarise message_count
    connection_count success_count total].
  split; [|split; [apply filter_length_le | exact L]].
  symmetry. apply count_split.
  - clear L. induction H as [|u r us rs Hr Hrs IH]; constructor; [|exact IH].
    exact (success_splits u r Hr).
  - clear. induction results as [|r rs IH]; constructor; [|exact IH].
    unfold is_message, is_connection.
    destruct (action r) as [[|]|], (is_success r); reflexivity.
Qed.

(** Pressing the process button ends in figures only for a list of URLs
    that is not empty, so the success rate is a number, between 0 and 1: the
    division by the number of results cannot fail. *)
Theorem rate_is_a_fraction linkedin_urls results figures rate :
  on_process_button env api_key dsn account_id linkedin_urls
                    message_text connection_text personalize
  = Processed results figures rate ->
  api_key <> [] /\ account_id <> [] /\ linkedin_urls <> [] /\
  figures = summarise results /\
  exists q, rate = Some q /\ in_unit q.
Proof.
  unfold on_process_button.
  destruct (truthy_text api_key) eqn:K; [|discriminate].
  destruct (truthy_text account_id) eqn:A; [|discriminate]. cbn [negb].
  destruct linkedin_urls as [|u us] eqn:U; [discriminate|].
  destruct (run_all (u :: us)) as [rs|e] eqn:B; [|discriminate].
  intros [= <- <- <-].
  pose proof (batch_length _ _ B) as L.
  split; [intros ->; discriminate K|].
  split; [intros ->; discriminate A|].
  split; [discriminate|]. split; [reflexivity|].
  destruct rs as [|r rs]; [discriminate L|].
  eexists. split; [reflexivity|].
  unfold in_unit. split.
  - apply div_nonneg; apply of_nat_nonneg.
  - apply Qle_shift_div_r.
    + unfold of_nat. change 0 with (inject_Z 0). rewrite <- Zlt_Qlt. simpl. lia.
    + rewrite Qmult_1_l. unfold of_nat. rewrite <- Zle_Qle.
      apply inj_le. apply filter_length_le.
Qed.

End BatchFacts.

(** The figures of two lists of results joined are the sums of their
    figures. *)
Theorem summary_of_joined_results :
  forall a b,
    total (summarise (a ++ b)) = (total (summarise a) + total (summarise b))%nat /\
    success_count (summarise (a ++ b))
    = (success_count (summarise a) + success_count (summarise b))%nat /\
    message_count (summarise (a ++ b))
    = (message_count (summarise a) + message_count (summarise b))%nat /\
    connection_count (summarise (a ++ b))
    = (connection_count (summarise a) + connection_count (summarise b))%nat.
Proof.
  intros a b. unfold summarise, count. simpl.
  rewrite !filter_app, !length_app. auto.
Qed.

Lemma step_up (i n : nat) : of_nat (i + 1) / of_nat n <= of_nat (S i + 1) / of_nat n.
Proof.
  unfold Qdiv. apply Qmult_le_compat_r.
  - unfold of_nat. rewrite <- Zle_Qle. lia.
  - apply Qinv_le_0_compat. apply of_nat_nonneg.
Qed.

Lemma nondecreasing_steps (f : nat -> Q) n : forall a,
  (forall i, f i <= f (S i)) -> nondecreasing (map f (seq a n)).
Proof.
  induction n as [|n IH]; intros a Hf; [exact I|].
  destruct n as [|n]; [exact I|].
  specialize (IH (S a) Hf). cbn [seq map] in *. split; [apply Hf | exact IH].
Qed.

(** The bar of the batch, unlike the bar of the search, never steps back:
    the values it is given are non-decreasing, lie between 0 and 1, and the
    last one is 1. *)
Theorem batch_progress_is_monotone :
  forall n,
    nondecreasing (batch_progress n) /\
    Forall in_unit (batch_progress n) /\
    (forall p, last (batch_progress (S n)) p == 1).
Proof.
  intros n. unfold batch_progress. split; [|split].
  - apply nondecreasing_steps. intros i. apply step_up.
  - apply Forall_forall. intros p Hp. apply in_map_iff in Hp.
    destruct Hp as (i & <- & Hi). apply in_seq in Hi. unfold in_unit. split.
    + apply div_nonneg; apply of_nat_nonneg.
    + apply Qle_shift_div_r.
      * unfold of_nat. change 0 with (inject_Z 0). rewrite <- Zlt_Qlt. lia.
      * rewrite Qmult_1_l. unfold of_nat. rewrite <- Zle_Qle. lia.
  - intros p. rewrite seq_S, map_app. cbn [map]. rewrite last_last.
    cbn [Nat.add]. replace (n + 1)%nat with (S n) by lia.
    apply Qmult_inv_r. unfold of_nat. intros H.
    apply (Qeq_bool_neq (inject_Z (Z.of_nat (S n))) 0); [|exact H].
    unfold Qeq_bool, Qnum, Qden, inject_Z. cbn [Z.mul]. now destruct n.
Qed.

(** ** The queries of a search and where the profiles come from *)

(** The plan of a search: the targeted queries, then the broader one. *)
Lemma plan_length keyword description :
  length (queries keyword description ++ [broader_query keyword]) = 4%nat.
Proof. reflexivity. Qed.

Section PlanFacts.

Variable search : text -> search_outcome.
Variable num_results : Z.

(** The targeted loop sends its queries in order and stops sending at the
    query that filled the list. *)
Lemma run_queries_searches nq qs : forall i acc ret final ev,
  run_queries search num_results i nq qs acc = (ret, final, ev) ->
  exists k, (k <= length qs)%nat /\ searches ev = firstn k qs /\
            (ret = false -> k = length qs) /\ (qs <> [] -> (1 <= k)%nat).
Proof.
  induction qs as [|q qs IH]; intros i acc ret final ev; simpl.
  - intros [= <- <- <-]. exists 0%nat.
    split; [lia|]. split; [reflexivity|]. split; [reflexivity|]. congruence.
  - destruct (search q) as [urls|msg].
    + pose proof (scan_targeted_searches num_results i nq (length urls) urls 0 acc) as Hs.
      destruct (scan_targeted num_results i nq (length urls) 0 urls acc)
        as [[[|] f] e]; simpl in Hs.
      * intros [= <- <- <-]. exists 1%nat. simpl. rewrite Hs.
        split; [lia|]. split; [reflexivity|]. split; [discriminate|]. intros _; lia.
      * destruct (run_queries search num_results (S i) nq qs f) as [[r' f'] e'] eqn:E.
        intros [= <- <- <-]. destruct (IH _ _ _ _ _ E) as (k & Hk & Hq & Hr & _).
        exists (S k). simpl. rewrite searches_app, Hs, Hq.
        split; [lia|]. split; [reflexivity|].
        split; [intros R; now rewrite (Hr R) | intros _; lia].
    + destruct (run_queries search num_results (S i) nq qs acc) as [[r' f'] e'] eqn:E.
      intros [= <- <- <-]. destruct (IH _ _ _ _ _ E) as (k & Hk & Hq & Hr & _).
      exists (S k). simpl. rewrite Hq.
      split; [lia|]. split; [reflexivity|].
      split; [intros R; now rewrite (Hr R) | intros _; lia].
Qed.

Lemma captured_snoc known acc url p :
  captured_from known acc -> known url -> new_profile url acc = Some p ->
  captured_from known (acc ++ [p]).
Proof.
  intros Hacc Hk Hn q Hq. apply in_app_iff in Hq. destruct Hq as [Hq|[<-|[]]].
  - now apply Hacc.
  - exists url. split; [exact Hk|]. unfold new_profile in Hn.
    destruct (first_match url) as [m|]; [|discriminate].
    destruct (text_in m acc); [discriminate|]. now injection Hn as <-.
Qed.

Lemma scan_targeted_captured known i nq total urls : forall j acc,
  (forall url, In url urls -> known url) -> captured_from known acc ->
  captured_from known (snd (fst (scan_targeted num_results i nq total j urls acc))).
Proof.
  induction urls as [|u urls IH]; intros j acc Hk Hacc; simpl; [exact Hacc|].
  assert (Hk' : forall url, In url urls -> known url) by (intros; apply Hk; now right).
  destruct (new_profile u acc) as [p|] eqn:E.
  - pose proof (captured_snoc known acc u p Hacc (Hk u (or_introl eq_refl)) E) as H'.
    destruct (reached num_results (acc ++ [p])); [exact H'|].
    specialize (IH (S j) _ Hk' H').
    destruct (scan_targeted num_results i nq total (S j) urls (acc ++ [p])) as [[r f] e].
    exact IH.
  - specialize (IH (S j) _ Hk' Hacc).
    destruct (scan_targeted num_results i nq total (S j) urls acc) as [[r f] e].
    exact IH.
Qed.

Lemma scan_broader_captured known total urls : forall j acc,
  (forall url, In url urls -> known url) -> captured_from known acc ->
  captured_from known (fst (scan_broader num_results total j urls acc)).
Proof.
  induction urls as [|u urls IH]; intros j acc Hk Hacc; simpl; [exact Hacc|].
  assert (Hk' : forall url, In url urls -> known url) by (intros; apply Hk; now right).
  destruct (new_profile u acc) as [p|] eqn:E.
  - pose proof (captured_snoc known acc u p Hacc (Hk u (or_introl eq_refl)) E) as H'.
    destruct (reached num_results (acc ++ [p])); [exact H'|].
    specialize (IH (S j) _ Hk' H').
    destruct (scan_broader num_results total (S j) urls (acc ++ [p])) as [f e].
    exact IH.
  - specialize (IH (S j) _ Hk' Hacc).
    destruct (scan_broader num_results total (S j) urls acc) as [f e].
    exact IH.
Qed.

Lemma run_queries_captured plan nq qs : forall i acc,
  (forall q, In q qs -> In q plan) -> captured_from (answered search plan) acc ->
  captured_from (answered search plan)
    (snd (fst (run_queries search num_results i nq qs acc))).
Proof.
  induction qs as [|q qs IH]; intros i acc Hp Hacc; simpl; [exact Hacc|].
  assert (Hp' : forall x, In x qs -> In x plan) by (intros; apply Hp; now right).
  destruct (search q) as [urls|msg] eqn:Sq.
  - assert (Hk : forall url, In url urls -> answered search plan url).
    { intros url Hu. exists q, urls. split; [apply Hp; now left | now split]. }
    pose proof (scan_targeted_captured (answered search plan) i nq (length urls) urls 0 acc
                  Hk Hacc) as H'.
    destruct (scan_targeted num_results i nq (length urls) 0 urls acc) as [[[|] f] e];
      simpl in H'; [exact H'|].
    specialize (IH (S i) f Hp' H').
    destruct (run_queries search num_results (S i) nq qs f) as [[r' f'] e']. exact IH.
  - specialize (IH (S i) acc Hp' Hacc).
    destruct (run_queries search num_results (S i) nq qs acc) as [[r' f'] e']. exact IH.
Qed.

End PlanFacts.

(** A search sends between one and four queries, each at most once and in
    the order of the plan; and a search that ends with fewer profiles than
    asked for has sent all four: it never gives up while below the cap. *)
Theorem queries_follow_the_plan :
  forall search num_results keyword description,
    let plan := queries keyword description ++ [broader_query keyword] in
    let run := search_linkedin_profiles search num_results keyword description in
    (exists k, (1 <= k <= 4)%nat /\ searches (snd run) = firstn k plan) /\
    ((0 < num_results)%Z ->
     (Z.of_nat (length (fst run)) < num_results)%Z ->
     searches (snd run) = plan).
Proof.
  intros search n k d plan run. subst plan run. unfold search_linkedin_profiles.
  set (qs := queries k d).
  assert (Lq : length qs = 3%nat) by reflexivity.
  destruct (run_queries search n 0 (length qs) qs []) as [[r f] e] eqn:E.
  destruct (run_queries_searches search n (length qs) qs 0 [] r f e E)
    as (j & Hj & Hs & Hr & H1).
  assert (Hj1 : (1 <= j)%nat) by (apply H1; discriminate).
  destruct r.
  - cbn [fst snd app searches]. split.
    + exists j. split; [lia|]. rewrite Hs.
      rewrite firstn_app. replace (j - length qs)%nat with 0%nat by lia.
      cbn [firstn]. now rewrite app_nil_r.
    + intros Hpos Hlt.
      pose proof (run_queries_cap search n (length qs) qs 0 [] true f e Hpos E)
        as [L _].
      lia.
  - specialize (Hr eq_refl). subst j. rewrite firstn_all in Hs.
    unfold broader_search.
    destruct (Z.ltb_spec (Z.of_nat (length f)) n) as [L|L].
    + assert (F : forall g h,
                 searches h = [] ->
                 (exists j, (1 <= j <= 4)%nat /\
                    searches
                      ([StatusInfo k d; SetProgress 0] ++ e
                       ++ ([LogLine LogBroader; LogLine (LogBroaderQuery (broader_query k));
                            RunSearch (broader_query k)] ++ h)
                       ++ [LogLine (closing_line g); SetProgress 1])
                    = firstn j (qs ++ [broader_query k])) /\
                 searches
                   ([StatusInfo k d; SetProgress 0] ++ e
                    ++ ([LogLine LogBroader; LogLine (LogBroaderQuery (broader_query k));
                         RunSearch (broader_query k)] ++ h)
                    ++ [LogLine (closing_line g); SetProgress 1])
                 = qs ++ [broader_query k]).
      { intros g h Hh. cbn [app searches].
        rewrite !searches_app, Hs. cbn [searches app].
        rewrite searches_app, Hh. cbn [searches app].
        split; [|reflexivity]. exists 4%nat. split; [lia|]. reflexivity. }
      destruct (search (broader_query k)) as [urls|msg].
      * pose proof (scan_broader_searches n (length urls) urls 0 f) as H.
        destruct (scan_broader n (length urls) 0 urls f) as [g h].
        cbn [fst snd] in *. destruct (F g h H) as [F1 F2]. split; [exact F1|].
        intros _ _. exact F2.
      * cbn [fst snd]. destruct (F f [LogLine (LogBroaderError msg)] eq_refl) as [F1 F2].
        split; [exact F1|]. intros _ _. exact F2.
    + cbn [fst snd app searches]. rewrite !searches_app, Hs. cbn [searches app].
      rewrite !app_nil_r. split.
      * exists 3%nat. split; [lia|]. reflexivity.
      * intros _ Hlt. lia.
Qed.

Lemma queries_follow_the_plan_witness :
  searches (snd (search_linkedin_profiles Scenario.three_profiles 10
                   (lit "Data Scientist") (lit "fintech London")))
  = queries (lit "Data Scientist") (lit "fintech London")
    ++ [broader_query (lit "Data Scientist")].
Proof.
  apply (queries_follow_the_plan Scenario.three_profiles 10
           (lit "Data Scientist") (lit "fintech London")).
  - lia.
  - vm_compute. reflexivity.
Defined.

(** Every URL of the returned list is the capture of the profile pattern
    on a URL that the search provider listed in its answer to one of the
    four queries: the engine makes up no profile. *)
Theorem profiles_come_from_answers :
  forall search num_results keyword description p,
    In p (fst (search_linkedin_profiles search num_results keyword description)) ->
    exists query urls url,
      In query (queries keyword description ++ [broader_query keyword]) /\
      search query = SearchReturns urls /\ In url urls /\
      first_match url = Some p.
Proof.
  intros search n k d p. unfold search_linkedin_profiles.
  set (plan := queries k d ++ [broader_query k]).
  assert (H0 : captured_from (answered search plan) []) by (intros x []).
  pose proof (run_queries_captured search n plan (length (queries k d)) (queries k d)
                0 [] (fun q Hq => in_or_app _ _ q (or_introl Hq)) H0) as H.
  destruct (run_queries search n 0 (length (queries k d)) (queries k d) [])
    as [[r f] e]. simpl in H.
  assert (G : forall final, captured_from (answered search plan) final ->
                            In p final ->
                            exists query urls url,
                              In query plan /\ search query = SearchReturns urls /\
                              In url urls /\ first_match url = Some p).
  { intros final Hc Hp. destruct (Hc p Hp) as (url & (q & urls & Hq & Hs & Hu) & Hm).
    exists q, urls, url. auto. }
  destruct r; [apply G; exact H|].
  assert (B : captured_from (answered search plan) (fst (broader_search search n k f))).
  { unfold broader_search.
    destruct (Z.of_nat (length f) <? n)%Z; [|exact H].
    destruct (search (broader_query k)) as [urls|msg] eqn:Sq; [|exact H].
    assert (Hk : forall url, In url urls -> answered search plan url).
    { intros url Hu. exists (broader_query k), urls.
      split; [apply in_or_app; right; now left | now split]. }
    pose proof (scan_broader_captured n (answered search plan) (length urls) urls 0 f
                  Hk H) as H'.
    destruct (scan_broader n (length urls) 0 urls f) as [g h]. exact H'. }
  destruct (broader_search search n k f) as [g h]. apply G. exact B.
Qed.

Lemma profiles_come_from_answers_witness :
  exists query urls url,
    In query (queries (lit "Data Scientist") (lit "fintech London")
              ++ [broader_query (lit "Data Scientist")]) /\
    Scenario.three_profiles query = SearchReturns urls /\ In url urls /\
    first_match url = Some (lit "https://www.linkedin.com/in/bob").
Proof.
  apply (profiles_come_from_answers Scenario.three_profiles 10
           (lit "Data Scientist") (lit "fintech London")).
  vm_compute. right. left. reflexivity.
Defined.

Lemma differ_at (i : nat) (a b : text) :
  nth i a " "%char <> nth i b " "%char -> a <> b.
Proof. intros H E. apply H. now rewrite E. Qed.

(** The four queries of a plan are pairwise different texts, whatever the
    keyword and the description: no query is sent twice under another
    position of the plan, and a search provider that answers by the text of
    the query can give each of them its own answer. *)
Theorem plan_has_no_repeats :
  forall keyword description,
    NoDup (queries keyword description ++ [broader_query keyword]).
Proof.
  intros k d. unfold queries, broader_query. cbn [app].
  assert (L : forall a b : text, length a <> length b -> a <> b)
    by (intros a b H E; apply H; now rewrite E).
  repeat constructor; cbn [In]; intros H;
    repeat match type of H with
      | _ \/ _ => destruct H as [H|H]
      | False => destruct H
      end; revert H.
  - apply not_eq_sym, (differ_at 0). vm_compute. discriminate.
  - apply not_eq_sym, (differ_at 21). vm_compute. discriminate.
  - apply not_eq_sym, L. unfold quoted. rewrite !length_app. simpl.
    rewrite !length_app. simpl. lia.
  - apply not_eq_sym, (differ_at 0). vm_compute. discriminate.
  - apply not_eq_sym, (differ_at 0). vm_compute. discriminate.
  - apply not_eq_sym, (differ_at 21). vm_compute. discriminate.
Qed.

Lemma ends_cons (x : Q) l : (exists pre, l = pre ++ [1]) -> exists pre, x :: l = pre ++ [1].
Proof. intros [pre ->]. now exists (x :: pre). Qed.

Lemma ends_app (a l : list Q) :
  (exists pre, l = pre ++ [1]) -> exists pre, a ++ l = pre ++ [1].
Proof. intros [pre ->]. exists (a ++ pre). now rewrite app_assoc. Qed.

Lemma scan_targeted_ends n i nq total urls : forall j acc,
  fst (fst (scan_targeted n i nq total j urls acc)) = true ->
  exists pre, progress_values (snd (scan_targeted n i nq total j urls acc)) = pre ++ [1].
Proof.
  induction urls as [|u urls IH]; intros j acc; simpl; [discriminate|].
  destruct (new_profile u acc) as [p|].
  - destruct (reached n (acc ++ [p])); [intros _; now exists []|].
    specialize (IH (S j) (acc ++ [p])).
    destruct (scan_targeted n i nq total (S j) urls (acc ++ [p])) as [[r f] e].
    simpl in *. intros R. apply ends_cons. exact (IH R).
  - specialize (IH (S j) acc).
    destruct (scan_targeted n i nq total (S j) urls acc) as [[r f] e].
    simpl in *. intros R. apply ends_cons. exact (IH R).
Qed.

Lemma run_queries_ends search n nq qs : forall i acc,
  fst (fst (run_queries search n i nq qs acc)) = true ->
  exists pre, progress_values (snd (run_queries search n i nq qs acc)) = pre ++ [1].
Proof.
  induction qs as [|q qs IH]; intros i acc; simpl; [discriminate|].
  destruct (search q) as [urls|msg].
  - pose proof (scan_targeted_ends n i nq (length urls) urls 0 acc) as Ht.
    destruct (scan_targeted n i nq (length urls) 0 urls acc) as [[[|] f] e];
      simpl in *.
    + intros _. apply ends_cons. exact (Ht eq_refl).
    + specialize (IH (S i) f).
      destruct (run_queries search n (S i) nq qs f) as [[r' f'] e'].
      simpl in *. intros R. apply ends_cons. rewrite progress_values_app.
      apply ends_app. exact (IH R).
  - specialize (IH (S i) acc).
    destruct (run_queries search n (S i) nq qs acc) as [[r' f'] e'].
    simpl in *. intros R. apply ends_cons. exact (IH R).
Qed.

(** Whatever the queries answer, the bar of the search is first given 0
    and last given 1, and every value in between lies between 0 and 1. *)
Theorem search_progress_ends_at_one :
  forall search num_results keyword description,
    let values :=
      progress_values
        (snd (search_linkedin_profiles search num_results keyword description)) in
    hd 1 values = 0 /\ last values 0 = 1 /\ Forall in_unit values.
Proof.
  intros search n k d values. subst values.
  split; [|split; [|apply progress_within_unit]].
  - unfold search_linkedin_profiles.
    destruct (run_queries search n 0 _ _ []) as [[[|] f] e]; [reflexivity|].
    now destruct (broader_search search n k f).
  - unfold search_linkedin_profiles.
    pose proof (run_queries_ends search n (length (queries k d)) (queries k d) 0 [])
      as Hq.
    destruct (run_queries search n 0 _ _ []) as [[[|] f] e];
      cbn [fst snd app progress_values] in *.
    + destruct (Hq eq_refl) as [pre ->].
      change (0 :: pre ++ [1]) with ((0 :: pre) ++ [1]). apply last_last.
    + destruct (broader_search search n k f) as [g h].
      cbn [fst snd app progress_values].
      rewrite !progress_values_app. cbn [progress_values].
      change (0 :: progress_values e ++ progress_values h ++ [1])
        with ((0 :: progress_values e) ++ progress_values h ++ [1]).
      rewrite !app_assoc. apply last_last.
Qed.

(** ** What the profile pattern captures *)

Lemma starts_with_nth p s i d :
  starts_with p s = true -> (i < length p)%nat -> nth i s d = nth i p d.
Proof.
  intros H Hi. rewrite (starts_with_split p s H). now apply app_nth1.
Qed.

(** What may follow a match starts with a slash or a blank, if it starts
    at all. *)
Lemma newline_is_space c : is_newline c = true -> is_space c = true.
Proof.
  unfold is_newline, is_space. intros H. apply Nat.eqb_eq in H. now rewrite H.
Qed.

Lemma tail_ok_head c r : tail_ok (c :: r) = true -> seg_chr c = false.
Proof.
  unfold tail_ok, boundary, seg_chr.
  destruct (chr_eqb c "/"%char); [reflexivity|].
  destruct (is_space c) eqn:Sp; [reflexivity|]. cbn [andb orb negb].
  unfold at_dollar. destruct r; [|discriminate].
  intros H. apply newline_is_space in H. congruence.
Qed.

Lemma segment_shape s : forall seg,
  segment s = Some seg ->
  seg <> [] /\ forallb seg_chr seg = true /\
  exists post, s = seg ++ post /\ tail_ok post = true.
Proof.
  induction s as [|c r IH]; intros seg; simpl; [discriminate|].
  destruct (seg_chr c) eqn:C; [|discriminate].
  destruct (segment r) as [seg'|].
  - intros [= <-]. destruct (IH seg' eq_refl) as (_ & F & post & -> & T).
    split; [discriminate|]. split; [simpl; now rewrite C|].
    exists post. now split.
  - destruct (tail_ok r) eqn:T; [|discriminate]. intros [= <-].
    split; [discriminate|]. split; [simpl; now rewrite C|].
    exists r. now split.
Qed.

Lemma lazy_any_shape s : forall m,
  lazy_any s = Some m ->
  exists any seg post,
    m = any ++ lit "linkedin.com/in/" ++ seg /\ s = m ++ post /\
    no_newline any = true /\ seg <> [] /\ forallb seg_chr seg = true /\
    tail_ok post = true.
Proof.
  induction s as [|c r IH]; intros m.
  - simpl. unfold host_and_segment. simpl. discriminate.
  - cbn [lazy_any]. destruct (host_and_segment (c :: r)) as [h|] eqn:H.
    + intros [= <-]. unfold host_and_segment in H.
      destruct (starts_with (lit "linkedin.com/in/") (c :: r)) eqn:P; [|discriminate].
      destruct (segment (skipn (length (lit "linkedin.com/in/")) (c :: r)))
        as [seg|] eqn:G; [|discriminate].
      injection H as <-.
      destruct (segment_shape _ seg G) as (N & F & post & E & T).
      exists [], seg, post. repeat split; auto.
      rewrite (starts_with_split _ _ P) at 1. rewrite E. reflexivity.
    + destruct (is_newline c) eqn:Nl; [discriminate|].
      destruct (lazy_any r) as [m'|]; [|discriminate]. intros [= <-].
      destruct (IH m' eq_refl) as (any & seg & post & -> & -> & Na & N & F & T).
      exists (c :: any), seg, post. repeat split; auto.
      unfold no_newline in *. simpl. now rewrite Nl.
Qed.

Lemma after_scheme_shape t x :
  after_scheme t = Some x ->
  exists any seg post,
    x = lit "://" ++ any ++ lit "linkedin.com/in/" ++ seg /\
    t = x ++ post /\ no_newline any = true /\ seg <> [] /\
    forallb seg_chr seg = true /\ tail_ok post = true.
Proof.
  unfold after_scheme.
  destruct (starts_with (lit "://") t) eqn:Q; [|discriminate].
  destruct (lazy_any (skipn (length (lit "://")) t)) as [y|] eqn:Y; [|discriminate].
  intros [= <-].
  destruct (lazy_any_shape _ y Y) as (any & seg & post & -> & E & Na & N & F & T).
  exists any, seg, post. repeat split; auto.
  rewrite (starts_with_split _ _ Q) at 1. rewrite E. reflexivity.
Qed.

Lemma match_here_shape s m :
  match_here s = Some m -> exists post, s = m ++ post /\ capture m post.
Proof.
  unfold match_here.
  destruct (starts_with (lit "http") s) eqn:P; [|discriminate].
  pose proof (starts_with_split _ _ P) as Es.
  set (r := skipn (length (lit "http")) s) in *. clearbody r. subst s. clear P.
  assert (B : forall x, after_scheme r = Some x ->
                        exists post, lit "http" ++ r = (lit "http" ++ x) ++ post /\
                                     capture (lit "http" ++ x) post).
  { intros x X.
    destruct (after_scheme_shape _ _ X) as (any & seg & post & -> & E & Na & N & F & T).
    exists post. split; [rewrite E at 1; now rewrite app_assoc|].
    exists (lit "http"), any, seg. repeat split; auto. }
  destruct r as [|c r'].
  - cbn [option_map]. destruct (after_scheme []) as [x|] eqn:X; [|discriminate].
    intros [= <-]. exact (B x eq_refl).
  - destruct (chr_eqb c "s"%char) eqn:C.
    + apply chr_eqb_eq in C. subst c.
      destruct (after_scheme r') as [x|] eqn:X; cbn [option_map].
      * intros [= <-].
        destruct (after_scheme_shape _ _ X)
          as (any & seg & post & -> & E & Na & N & F & T).
        exists post. split; [rewrite E at 1; reflexivity|].
        exists (lit "https"), any, seg. repeat split; auto.
      * destruct (after_scheme ("s"%char :: r')) as [x|]; [|discriminate].
        intros [= <-]. exact (B x eq_refl).
    + destruct (after_scheme (c :: r')) as [x|]; [|discriminate].
      intros [= <-]. exact (B x eq_refl).
Qed.

(** A capture of the profile pattern is a piece of the searched text that
    starts with [http://] or [https://], holds [linkedin.com/in/] followed
    by a name of at least one character, none of them a slash or a blank,
    has no newline before the name, and is followed in the text by nothing,
    a slash or a blank. *)
Theorem capture_is_a_profile_url :
  forall url m,
    first_match url = Some m ->
    exists pre post, url = pre ++ m ++ post /\ capture m post.
Proof.
  intros u. induction u as [|c r IH]; intros m.
  - intros H. vm_compute in H. discriminate.
  - cbn [first_match]. destruct (match_here (c :: r)) as [x|] eqn:X.
    + intros [= <-]. destruct (match_here_shape _ _ X) as (post & E & C).
      exists [], post. now split.
    + intros H. destruct (IH m H) as (pre & post & -> & C).
      exists (c :: pre), post. now split.
Qed.

Lemma capture_is_a_profile_url_witness :
  exists pre post,
    lit "see https://www.linkedin.com/in/bob/ and more"
    = pre ++ lit "https://www.linkedin.com/in/bob" ++ post /\
    capture (lit "https://www.linkedin.com/in/bob") post.
Proof.
  apply (capture_is_a_profile_url (lit "see https://www.linkedin.com/in/bob/ and more")).
  reflexivity.
Defined.

(** The name of a profile URL is matched whole when what follows may
    follow a match. *)
Lemma segment_exact seg post :
  seg <> [] -> forallb seg_chr seg = true -> tail_ok post = true ->
  segment (seg ++ post) = Some seg.
Proof.
  intros N F T.
  assert (P : segment post = None).
  { destruct post as [|c r]; [reflexivity|]. simpl.
    now rewrite (tail_ok_head c r T). }
  induction seg as [|c seg IH]; [congruence|].
  simpl in F. apply andb_true_iff in F. destruct F as [Fc Fs].
  cbn [app segment]. rewrite Fc. destruct seg as [|c' seg'].
  - cbn [app]. now rewrite P, T.
  - now rewrite (IH ltac:(discriminate) Fs).
Qed.

Lemma has_chr_in c s : has_chr c s = false -> forall i, (i < length s)%nat ->
  nth i s " "%char <> c.
Proof.
  unfold has_chr. intros H i Hi E.
  assert (X : existsb (chr_eqb c) s = true).
  { apply existsb_exists. exists c. split; [rewrite <- E; now apply nth_In|].
    now apply chr_eqb_eq. }
  congruence.
Qed.

(** Before the host name is over, [linkedin.com/in/] cannot start: its
    slash would have to lie in the host name. *)
Lemma host_prefix_free h rest :
  h <> [] -> has_chr "/"%char h = false ->
  starts_with (lit "linkedin.com/in/") (h ++ lit "linkedin.com/in/" ++ rest) = false.
Proof.
  intros N H.
  destruct (starts_with _ _) eqn:S; [|reflexivity]. exfalso.
  pose proof (starts_with_nth _ _ 12 " "%char S ltac:(vm_compute; lia)) as E.
  change (nth 12 (lit "linkedin.com/in/") " "%char) with "/"%char in E.
  destruct (Nat.lt_ge_cases 12 (length h)) as [L|L].
  - rewrite app_nth1 in E by exact L. exact (has_chr_in _ _ H 12 L E).
  - rewrite app_nth2 in E by exact L.
    assert (Lh : (1 <= length h)%nat) by (destruct h; [congruence | simpl; lia]).
    rewrite app_nth1 in E by (change (length (lit "linkedin.com/in/")) with 16%nat; lia).
    remember (12 - length h)%nat as j eqn:J.
    assert (Hj : (j <= 11)%nat) by lia. clear - E Hj.
    do 12 (destruct j as [|j]; [vm_compute in E; discriminate E|]). lia.
Qed.

Lemma lazy_any_host h seg post :
  has_chr "/"%char h = false -> no_newline h = true ->
  seg <> [] -> forallb seg_chr seg = true -> tail_ok post = true ->
  lazy_any (h ++ lit "linkedin.com/in/" ++ seg ++ post)
  = Some (h ++ lit "linkedin.com/in/" ++ seg).
Proof.
  intros H Nl N F T. induction h as [|c h IH].
  - cbn [app]. assert (G : host_and_segment (lit "linkedin.com/in/" ++ seg ++ post)
                           = Some (lit "linkedin.com/in/" ++ seg)).
    { unfold host_and_segment. rewrite starts_with_app.
      rewrite skipn_app, skipn_all, Nat.sub_diag. cbn [app skipn].
      now rewrite (segment_exact seg post N F T). }
    destruct (lit "linkedin.com/in/" ++ seg ++ post) eqn:E; cbn [lazy_any];
      now rewrite G.
  - simpl in H. apply orb_false_iff in H. destruct H as [Hc Hh].
    unfold no_newline in Nl. simpl in Nl. apply andb_true_iff in Nl.
    destruct Nl as [Nc Nh].
    cbn [app lazy_any].
    assert (G : host_and_segment (c :: h ++ lit "linkedin.com/in/" ++ seg ++ post) = None).
    { unfold host_and_segment.
      assert (Pf : starts_with (lit "linkedin.com/in/")
                     ((c :: h) ++ lit "linkedin.com/in/" ++ seg ++ post) = false).
      { apply host_prefix_free; [discriminate|]. simpl. now rewrite Hc, Hh. }
      cbn [app] in Pf. now rewrite Pf. }
    rewrite G. apply negb_true_iff in Nc. rewrite Nc.
    now rewrite (IH Hh Nh).
Qed.

Lemma skipn_prefix (p r : text) : skipn (length p) (p ++ r) = r.
Proof. induction p as [|c p IH]; [reflexivity | exact IH]. Qed.

Lemma after_scheme_sep t :
  after_scheme (lit "://" ++ t) = option_map (app (lit "://")) (lazy_any t).
Proof.
  unfold after_scheme. now rewrite starts_with_app, skipn_prefix.
Qed.

Lemma match_here_http t m :
  lazy_any t = Some m ->
  match_here (lit "http" ++ lit "://" ++ t) = Some (lit "http" ++ lit "://" ++ m).
Proof.
  intros L. unfold match_here. rewrite starts_with_app, skipn_prefix.
  change (lit "://" ++ t) with (":"%char :: lit "//" ++ t) at 1.
  cbn iota. change (chr_eqb ":"%char "s"%char) with false. cbn iota.
  now rewrite after_scheme_sep, L.
Qed.

Lemma match_here_https t m :
  lazy_any t = Some m ->
  match_here (lit "https" ++ lit "://" ++ t) = Some (lit "https" ++ lit "://" ++ m).
Proof.
  intros L. change (lit "https" ++ lit "://" ++ t)
    with (lit "http" ++ "s"%char :: lit "://" ++ t).
  unfold match_here. rewrite starts_with_app, skipn_prefix.
  cbn iota. change (chr_eqb "s"%char "s"%char) with true. cbn iota.
  now rewrite after_scheme_sep, L.
Qed.

Lemma first_match_here s m : match_here s = Some m -> first_match s = Some m.
Proof. intros H. destruct s; cbn [first_match]; now rewrite H. Qed.

(** A profile URL in its plain form - [http://] or [https://], a host part
    without slash or newline, [linkedin.com/in/] and a name - is captured as
    it is, and also when a slash, a blank or anything else that may end a
    match follows it: such a variant of a URL the list already holds is not
    added again. *)
Theorem plain_profile_url_is_captured :
  forall scheme host seg post,
    scheme = lit "http" \/ scheme = lit "https" ->
    has_chr "/"%char host = false -> no_newline host = true ->
    seg <> [] -> forallb seg_chr seg = true -> tail_ok post = true ->
    let u := scheme ++ lit "://" ++ host ++ lit "linkedin.com/in/" ++ seg in
    first_match (u ++ post) = Some u /\
    first_match (u ++ lit "/") = Some u /\
    forall profile_urls, In u profile_urls -> new_profile (u ++ post) profile_urls = None.
Proof.
  intros scheme host seg post Hs H Nl N F T u.
  assert (M : forall tail, tail_ok tail = true -> first_match (u ++ tail) = Some u).
  { intros tail Tt. subst u.
    pose proof (lazy_any_host host seg tail H Nl N F Tt) as L.
    rewrite <- !app_assoc. apply first_match_here.
    destruct Hs as [-> | ->]; [now apply match_here_http | now apply match_here_https]. }
  split; [exact (M post T)|]. split; [exact (M (lit "/") eq_refl)|].
  intros profile_urls Hin. unfold new_profile. rewrite (M post T).
  apply text_in_In in Hin. now rewrite Hin.
Qed.

Lemma plain_profile_url_is_captured_witness :
  first_match (lit "https://www.linkedin.com/in/bob/")
  = Some (lit "https://www.linkedin.com/in/bob").
Proof.
  exact (proj1 (proj2 (plain_profile_url_is_captured (lit "https") (lit "www.") (lit "bob")
                         [] (or_intror eq_refl) eq_refl eq_refl
                         ltac:(discriminate) eq_refl eq_refl))).
Defined.

(** ** The username of a URL *)

Lemma break_at_fst stop s :
  forallb (fun c => negb (stop c)) (fst (break_at stop s)) = true.
Proof.
  induction s as [|c r IH]; [reflexivity|]. simpl.
  destruct (stop c) eqn:S; [reflexivity|].
  destruct (break_at stop r) as [a b]. simpl in *. now rewrite S, IH.
Qed.

Lemma in_segment_shape path : forall u,
  in_segment path = Some u -> u <> [] /\ has_chr "/"%char u = false.
Proof.
  assert (H : forall p u,
             (if starts_with (lit "/in/") p
              then match fst (break_at (chr_eqb "/"%char) (skipn 4 p)) with
                   | [] => None
                   | seg => Some seg
                   end
              else None) = Some u ->
             u <> [] /\ has_chr "/"%char u = false).
  { intros p u. destruct (starts_with (lit "/in/") p); [|discriminate].
    pose proof (break_at_fst (chr_eqb "/"%char) (skipn 4 p)) as F.
    destruct (fst (break_at (chr_eqb "/"%char) (skipn 4 p))) as [|c seg];
      [discriminate|].
    intros [= <-]. split; [discriminate|].
    unfold has_chr. destruct (existsb _ (c :: seg)) eqn:X; [|reflexivity].
    apply existsb_exists in X. destruct X as (x & Hin & Hx).
    rewrite forallb_forall in F. specialize (F x Hin). now rewrite Hx in F. }
  induction path as [|c r IH]; intros u.
  - intros E. vm_compute in E. discriminate.
  - cbn [in_segment].
    destruct (if starts_with (lit "/in/") (c :: r) then _ else None) as [seg|] eqn:E.
    + intros [= <-]. exact (H _ _ E).
    + apply IH.
Qed.

(** An extracted username is never empty and holds no slash. *)
Theorem username_is_one_path_segment :
  forall netloc_ok linkedin_url u,
    extract_linkedin_username netloc_ok linkedin_url = Some u ->
    u <> [] /\ has_chr "/"%char u = false.
Proof.
  intros ok [s|s] u; [|discriminate]. unfold extract_linkedin_username.
  destruct s as [|c s]; [discriminate|].
  destruct (urlparse_path ok (strip (c :: s))) as [path|]; [|discriminate].
  apply in_segment_shape.
Qed.

Lemma username_is_one_path_segment_witness :
  lit "bob" <> [] /\ has_chr "/"%char (lit "bob") = false.
Proof.
  exact (username_is_one_path_segment Scenario.accept_all Scenario.bob (lit "bob") eq_refl).
Defined.

Lemma no_space_app a b : no_space (a ++ b) = no_space a && no_space b.
Proof. apply forallb_app. Qed.

Lemma lstrip_no_space s : no_space s = true -> lstrip_with is_space s = s.
Proof.
  destruct s as [|c s]; [reflexivity|]. unfold no_space. simpl.
  intros H. apply andb_true_iff in H. destruct H as [H _].
  apply negb_true_iff in H. now rewrite H.
Qed.

Lemma strip_no_space s : no_space s = true -> strip s = s.
Proof.
  intros H. unfold strip, rstrip_with. rewrite (lstrip_no_space s H).
  rewrite lstrip_no_space; [apply rev_involutive|].
  unfold no_space in *. rewrite forallb_forall in *.
  intros x Hx. apply H. now apply in_rev.
Qed.

Lemma unsafe_is_space c : is_space c = false -> unsafe_chr c = false.
Proof.
  unfold is_space, unsafe_chr. intros H.
  destruct (Nat.eqb_spec (code c) 9) as [E|_]; [rewrite E in H; discriminate|].
  destruct (Nat.eqb_spec (code c) 10) as [E|_]; [rewrite E in H; discriminate|].
  destruct (Nat.eqb_spec (code c) 13) as [E|_]; [rewrite E in H; discriminate|].
  reflexivity.
Qed.

Lemma filter_no_space s :
  no_space s = true -> filter (fun c => negb (unsafe_chr c)) s = s.
Proof.
  unfold no_space. induction s as [|c s IH]; [reflexivity|]. simpl.
  intros H. apply andb_true_iff in H. destruct H as [Hc Hs].
  apply negb_true_iff in Hc. now rewrite (unsafe_is_space c Hc), (IH Hs).
Qed.

Lemma break_at_app stop a c r :
  forallb (fun x => negb (stop x)) a = true -> stop c = true ->
  break_at stop (a ++ c :: r) = (a, c :: r).
Proof.
  intros Ha Hc. induction a as [|x a IH]; simpl.
  - now rewrite Hc.
  - simpl in Ha. apply andb_true_iff in Ha. destruct Ha as [Hx Ha].
    apply negb_true_iff in Hx. now rewrite Hx, (IH Ha).
Qed.

Lemma break_at_all stop a :
  forallb (fun x => negb (stop x)) a = true -> break_at stop a = (a, []).
Proof.
  induction a as [|x a IH]; [reflexivity|]. simpl.
  intros Ha. apply andb_true_iff in Ha. destruct Ha as [Hx Ha].
  apply negb_true_iff in Hx. now rewrite Hx, (IH Ha).
Qed.

Lemma split_at_fst_app stop a r :
  forallb (fun x => negb (stop x)) a = true ->
  fst (split_at stop (a ++ r)) = a ++ fst (split_at stop r).
Proof.
  induction a as [|x a IH]; [reflexivity|]. simpl.
  intros Ha. apply andb_true_iff in Ha. destruct Ha as [Hx Ha].
  apply negb_true_iff in Hx. rewrite Hx. specialize (IH Ha).
  destruct (split_at stop (a ++ r)) as [u v]. simpl in *. now rewrite IH.
Qed.

Lemma has_chr_app c a b : has_chr c (a ++ b) = has_chr c a || has_chr c b.
Proof. apply existsb_app. Qed.

Lemma has_chr_forallb c s :
  has_chr c s = false -> forallb (fun x => negb (chr_eqb c x)) s = true.
Proof.
  unfold has_chr. induction s as [|x s IH]; [reflexivity|]. simpl.
  intros H. apply orb_false_iff in H. destruct H as [Hx Hs].
  now rewrite Hx, (IH Hs).
Qed.

(** The characters a name may hold are none of [/ ? # ;]. *)
Lemma name_has_none seg c :
  forallb name_chr seg = true ->
  In c ["/"; "?"; "#"; ";"]%char -> has_chr c seg = false.
Proof.
  intros F Hc. unfold has_chr. destruct (existsb (chr_eqb c) seg) eqn:X; [|reflexivity].
  apply existsb_exists in X. destruct X as (x & Hin & Hx). apply chr_eqb_eq in Hx.
  subst x. rewrite forallb_forall in F. specialize (F c Hin).
  destruct Hc as [<-|[<-|[<-|[<-|[]]]]]; vm_compute in F; discriminate F.
Qed.

Lemma name_no_space seg : forallb name_chr seg = true -> no_space seg = true.
Proof.
  unfold no_space. rewrite !forallb_forall. intros F x Hx. specialize (F x Hx).
  unfold name_chr in F. now destruct (is_space x).
Qed.

Lemma host_no_space host : forallb host_chr host = true -> no_space host = true.
Proof.
  unfold no_space. rewrite !forallb_forall. intros F x Hx. specialize (F x Hx).
  unfold host_chr in F. now destruct (is_space x).
Qed.

Lemma in_segment_here path c seg :
  starts_with (lit "/in/") path = true ->
  fst (break_at (chr_eqb "/"%char) (skipn 4 path)) = c :: seg ->
  in_segment path = Some (c :: seg).
Proof.
  intros S B. destruct path as [|x path]; [discriminate S|].
  cbn [in_segment]. now rewrite S, B.
Qed.

(** The path of [//host/in/name], with or without a closing slash, a query
    or a fragment. *)
Lemma path_of_profile scheme seg b rest :
  uses_params scheme = true ->
  forallb name_chr seg = true -> query_or_fragment rest = true ->
  path_of scheme (lit "/in/" ++ seg ++ slash b ++ rest) = lit "/in/" ++ seg ++ slash b.
Proof.
  intros U F Q. unfold path_of.
  set (A := lit "/in/" ++ seg ++ slash b).
  assert (E : lit "/in/" ++ seg ++ slash b ++ rest = A ++ rest)
    by (unfold A; now rewrite <- !app_assoc).
  rewrite E.
  assert (N : forall c, In c ["?"; "#"; ";"]%char -> has_chr c A = false).
  { intros c Hc. unfold A. rewrite !has_chr_app.
    rewrite (name_has_none seg c F) by (now right).
    destruct Hc as [<-|[<-|[<-|[]]]]; now destruct b. }
  rewrite (split_at_fst_app (chr_eqb "#"%char) A rest)
    by (apply has_chr_forallb, N; simpl; auto).
  assert (R : exists e, fst (split_at (chr_eqb "#"%char) rest) = e /\
                        fst (split_at (chr_eqb "?"%char) e) = []).
  { destruct rest as [|c e]; [now exists []|].
    unfold query_or_fragment in Q. apply andb_true_iff in Q. destruct Q as [Q _].
    apply orb_true_iff in Q. destruct Q as [Q|Q]; apply chr_eqb_eq in Q; subst c.
    - cbn [split_at]. change (chr_eqb "#"%char "?"%char) with false. cbn iota.
      destruct (split_at (chr_eqb "#"%char) e) as [u v]. eexists. split; reflexivity.
    - exists []. split; reflexivity. }
  destruct R as (e & -> & Re).
  rewrite (split_at_fst_app (chr_eqb "?"%char) A e)
    by (apply has_chr_forallb, N; simpl; auto).
  rewrite Re, app_nil_r, U, (N ";"%char) by (simpl; auto). reflexivity.
Qed.

(** Protocol, closing slash, query and fragment do not matter to the
    username: from [http(s)://host/in/name], followed or not by a slash and
    by a query or a fragment, [extract_linkedin_username] takes [name]. *)
Theorem username_of_plain_profile_url :
  forall netloc_ok scheme host seg b rest,
    scheme = lit "http" \/ scheme = lit "https" ->
    forallb host_chr host = true -> netloc_ok host = true ->
    seg <> [] -> forallb name_chr seg = true ->
    query_or_fragment rest = true ->
    extract_linkedin_username netloc_ok
      (UrlText (scheme ++ lit "://" ++ host ++ lit "/in/" ++ seg ++ slash b ++ rest))
    = Some seg.
Proof.
  intros ok scheme host seg b rest Hs Fh Ok N Fs Q.
  set (tail := host ++ lit "/in/" ++ seg ++ slash b ++ rest).
  assert (Nt : no_space tail = true).
  { unfold tail. rewrite !no_space_app, (host_no_space host Fh), (name_no_space seg Fs).
    assert (no_space rest = true).
    { destruct rest; [reflexivity|]. unfold query_or_fragment in Q.
      apply andb_true_iff in Q. tauto. }
    rewrite H. now destruct b. }
  assert (Nu : no_space (scheme ++ lit "://" ++ tail) = true).
  { rewrite !no_space_app, Nt. now destruct Hs as [-> | ->]. }
  assert (P : urlparse_path ok (scheme ++ lit "://" ++ tail)
              = Some (lit "/in/" ++ seg ++ slash b)).
  { unfold urlparse_path.
    assert (L : lstrip_with c0_or_space (scheme ++ lit "://" ++ tail)
                = scheme ++ lit "://" ++ tail) by (now destruct Hs as [-> | ->]).
    rewrite L, (filter_no_space _ Nu).
    assert (Sc : split_scheme (scheme ++ lit "://" ++ tail) = (scheme, lit "//" ++ tail))
      by (now destruct Hs as [-> | ->]).
    rewrite Sc, starts_with_app.
    change (skipn 2 (lit "//" ++ tail)) with tail. unfold tail at 1.
    change (lit "/in/" ++ seg ++ slash b ++ rest)
      with ("/"%char :: lit "in/" ++ seg ++ slash b ++ rest).
    rewrite break_at_app; [| |reflexivity].
    - rewrite Ok. f_equal. apply path_of_profile; [|exact Fs|exact Q].
      now destruct Hs as [-> | ->].
    - rewrite forallb_forall in *. intros x Hx. specialize (Fh x Hx).
      unfold host_chr in Fh. apply andb_true_iff in Fh. tauto. }
  unfold extract_linkedin_username.
  destruct (scheme ++ lit "://" ++ tail) as [|c s] eqn:E.
  { destruct Hs as [-> | ->]; discriminate E. }
  rewrite (strip_no_space _ Nu), P.
  destruct seg as [|x seg]; [congruence|].
  apply in_segment_here; [reflexivity|].
  change (skipn 4 (lit "/in/" ++ (x :: seg) ++ slash b)) with ((x :: seg) ++ slash b).
  assert (Fx : forallb (fun c => negb (chr_eqb "/"%char c)) (x :: seg) = true)
    by (apply has_chr_forallb, (name_has_none (x :: seg)); [exact Fs | now left]).
  destruct b.
  - change (slash true) with ["/"%char].
    now rewrite (break_at_app (chr_eqb "/"%char) (x :: seg) "/"%char [] Fx eq_refl).
  - change (slash false) with (@nil ascii). rewrite app_nil_r.
    now rewrite (break_at_all (chr_eqb "/"%char) (x :: seg) Fx).
Qed.

Lemma username_of_plain_profile_url_witness :
  extract_linkedin_username Scenario.accept_all
    (UrlText (lit "http://uk.linkedin.com/in/jane-doe-123/?trk=public"))
  = Some (lit "jane-doe-123").
Proof.
  exact (username_of_plain_profile_url Scenario.accept_all (lit "http")
           (lit "uk.linkedin.com") (lit "jane-doe-123") true (lit "?trk=public")
           (or_introl eq_refl) eq_refl eq_refl ltac:(discriminate) eq_refl eq_refl).
Defined.

(** ** The URLs typed into the text area *)

(** [lstrip] cuts a run of dropped characters off the front. *)
Lemma lstrip_suffix drop s :
  exists pre, s = pre ++ lstrip_with drop s /\ forallb drop pre = true.
Proof.
  induction s as [|c s (pre & E & F)]; [now exists []|]. simpl.
  destruct (drop c) eqn:D.
  - exists (c :: pre). simpl. rewrite D, F. split; [now f_equal | reflexivity].
  - now exists [].
Qed.

Lemma lstrip_head drop s c r : lstrip_with drop s = c :: r -> drop c = false.
Proof.
  induction s as [|x s IH]; simpl; [discriminate|].
  destruct (drop x) eqn:D; [exact IH|]. now intros [= <- _].
Qed.

Lemma lstrip_fixed drop c r : drop c = false -> lstrip_with drop (c :: r) = c :: r.
Proof. intros D. simpl. now rewrite D. Qed.

Lemma last_suffix (pre s : text) d : s <> [] -> last (pre ++ s) d = last s d.
Proof.
  intros N. induction pre as [|x pre IH]; [reflexivity|].
  cbn [app last]. destruct (pre ++ s) eqn:E; [|exact IH].
  apply app_eq_nil in E. destruct E. contradiction.
Qed.

Lemma last_default (x : ascii) l d d' : last (x :: l) d = last (x :: l) d'.
Proof.
  revert x. induction l as [|y l IH]; intros x; [reflexivity|].
  change (last (y :: l) d = last (y :: l) d'). apply IH.
Qed.

Lemma last_rev (c : ascii) s d : last (rev (c :: s)) d = c.
Proof. simpl. apply last_last. Qed.

Lemma hd_rev (s : text) d : hd d (rev s) = last s d.
Proof.
  induction s as [|c s IH] using rev_ind; [reflexivity|].
  now rewrite rev_app_distr, last_last.
Qed.

(** A stripped text is empty or has no blank at either end. *)
Lemma strip_edges s c r :
  strip s = c :: r -> is_space c = false /\ is_space (last (c :: r) c) = false.
Proof.
  unfold strip, rstrip_with. set (t := lstrip_with is_space s).
  set (w := lstrip_with is_space (rev t)). intros E.
  assert (Hw : w <> []) by (intros Z; rewrite Z in E; discriminate).
  destruct w as [|x w'] eqn:W; [congruence|].
  pose proof (lstrip_head is_space (rev t) x w' W) as Hx.
  destruct (lstrip_suffix is_space (rev t)) as (pre & Ep & _).
  fold w in Ep. rewrite W in Ep.
  assert (Ht : t <> []) by (intros Z; rewrite Z in Ep; destruct pre; discriminate).
  destruct t as [|y t'] eqn:T; [congruence|].
  pose proof (lstrip_head is_space s y t' T) as Hy.
  split.
  - replace c with (hd c (rev (x :: w'))) by (now rewrite E).
    rewrite hd_rev. rewrite <- (last_suffix pre (x :: w') c) by discriminate.
    rewrite <- Ep. now rewrite last_rev.
  - rewrite <- E. now rewrite last_rev.
Qed.

Lemma strip_incl s x : In x (strip s) -> In x s.
Proof.
  unfold strip, rstrip_with. intros H. apply in_rev in H.
  destruct (lstrip_suffix is_space (rev (lstrip_with is_space s))) as (pre & E & _).
  assert (In x (rev (lstrip_with is_space s)))
    by (rewrite E; apply in_or_app; now right).
  apply in_rev in H0.
  destruct (lstrip_suffix is_space s) as (pre' & E' & _).
  rewrite E'. apply in_or_app. now right.
Qed.

(** A text with no blank at either end stays as it is. *)
Lemma strip_fixed c r :
  is_space c = false -> is_space (last (c :: r) c) = false -> strip (c :: r) = c :: r.
Proof.
  intros Hc Hl. unfold strip, rstrip_with. rewrite (lstrip_fixed is_space c r Hc).
  destruct (rev (c :: r)) as [|x w] eqn:R.
  - apply (f_equal (@length ascii)) in R. rewrite length_rev in R. discriminate.
  - assert (Hx : x = last (c :: r) c).
    { rewrite <- (hd_rev (c :: r) c), R. reflexivity. }
    rewrite lstrip_fixed by (now rewrite Hx).
    rewrite <- R. apply rev_involutive.
Qed.

Lemma split_on_pieces sep s : forall piece,
  In piece (split_on sep s) -> has_chr sep piece = false.
Proof.
  induction s as [|c s IH]; intros piece; simpl.
  - intros [<-|[]]. reflexivity.
  - destruct (chr_eqb c sep) eqn:C.
    + intros [<-|H]; [reflexivity | now apply IH].
    + destruct (split_on sep s) as [|p ps].
      * intros [<-|[]]. simpl. unfold chr_eqb in *. rewrite Ascii.eqb_sym, C.
        reflexivity.
      * intros [<-|H].
        -- simpl. unfold chr_eqb in *. rewrite Ascii.eqb_sym, C. simpl.
           apply IH. now left.
        -- apply IH. now right.
Qed.

Lemma split_on_nonempty sep s : split_on sep s <> [].
Proof.
  induction s as [|c s IH]; simpl; [discriminate|].
  destruct (chr_eqb c sep); [discriminate|].
  destruct (split_on sep s); discriminate.
Qed.

Lemma split_on_whole sep s : has_chr sep s = false -> split_on sep s = [s].
Proof.
  induction s as [|c s IH]; [reflexivity|]. simpl.
  intros H. apply orb_false_iff in H. destruct H as [Hc Hs].
  unfold chr_eqb in *. rewrite Ascii.eqb_sym, Hc. now rewrite (IH Hs).
Qed.

Lemma split_on_app sep u x :
  has_chr sep u = false -> split_on sep (u ++ sep :: x) = u :: split_on sep x.
Proof.
  induction u as [|c u IH]; simpl.
  - intros _. unfold chr_eqb. now rewrite Ascii.eqb_refl.
  - intros H. apply orb_false_iff in H. destruct H as [Hc Hu].
    unfold chr_eqb in *. rewrite Ascii.eqb_sym, Hc. now rewrite (IH Hu).
Qed.

Lemma tidy_parts u :
  tidy u = true ->
  exists c r, u = c :: r /\ is_space c = false /\
              is_space (last (c :: r) c) = false /\ has_chr newline u = false.
Proof.
  destruct u as [|c r]; [discriminate|]. unfold tidy. intros H.
  apply andb_true_iff in H. destruct H as [H Hn].
  apply andb_true_iff in H. destruct H as [Hc Hl].
  exists c, r. repeat split; now apply negb_true_iff.
Qed.

(** Every URL read from the text area is tidy: not empty, without a
    newline and without a blank at either end, whatever was typed. *)
Theorem typed_urls_are_tidy :
  forall urls_input u, In u (manual_urls urls_input) -> tidy u = true.
Proof.
  intros input u H. unfold manual_urls in H. apply in_map_iff in H.
  destruct H as (piece & <- & H). apply filter_In in H. destruct H as [Hp Ht].
  destruct (strip piece) as [|c r] eqn:E; [discriminate|].
  destruct (strip_edges piece c r E) as [Hc Hl].
  unfold tidy. rewrite Hc, Hl. cbn [negb andb].
  apply negb_true_iff. unfold has_chr.
  destruct (existsb (chr_eqb newline) (c :: r)) eqn:X; [|reflexivity].
  apply existsb_exists in X. destruct X as (x & Hx & Hn).
  apply chr_eqb_eq in Hn. subst x. rewrite <- E in Hx. apply strip_incl in Hx.
  pose proof (split_on_pieces newline _ piece Hp) as Hnone.
  unfold has_chr in Hnone.
  assert (existsb (chr_eqb newline) piece = true).
  { apply existsb_exists. exists newline. split; [exact Hx | now apply chr_eqb_eq]. }
  congruence.
Qed.

Lemma typed_urls_are_tidy_witness :
  tidy (lit "https://www.linkedin.com/in/bob") = true.
Proof.
  apply (typed_urls_are_tidy
           (newline :: lit "  https://www.linkedin.com/in/bob  " ++ [newline; newline])).
  vm_compute. left. reflexivity.
Defined.

Lemma join_lines_edges urls :
  Forall (fun u => tidy u = true) urls -> urls <> [] ->
  exists c r, join_lines urls = c :: r /\ is_space c = false /\
              is_space (last (c :: r) c) = false.
Proof.
  induction 1 as [|u us Hu Hus IH]; [congruence|]. intros _.
  destruct (tidy_parts u Hu) as (c & r & -> & Hc & Hl & _).
  destruct us as [|u2 us'].
  - exists c, r. now repeat split.
  - destruct (IH ltac:(discriminate)) as (c2 & r2 & E2 & _ & Hl2).
    cbn [join_lines] in *. rewrite E2.
    exists c, (r ++ newline :: c2 :: r2). repeat split; [exact Hc|].
    replace (c :: r ++ newline :: c2 :: r2) with ((c :: r ++ [newline]) ++ c2 :: r2)
      by (cbn [app]; now rewrite <- app_assoc).
    rewrite last_suffix by discriminate.
    now rewrite (last_default c2 r2 c c2).
Qed.

Lemma split_join urls :
  Forall (fun u => tidy u = true) urls -> urls <> [] ->
  split_on newline (join_lines urls) = urls.
Proof.
  induction 1 as [|u us Hu Hus IH]; [congruence|]. intros _.
  destruct (tidy_parts u Hu) as (c & r & E & _ & _ & Hn).
  destruct us as [|u2 us'].
  - cbn [join_lines]. now apply split_on_whole.
  - cbn [join_lines] in *. rewrite (split_on_app newline u _ Hn).
    now rewrite (IH ltac:(discriminate)).
Qed.

(** Tidy URLs typed one per line are read back as they are, in order:
    [manual_urls] undoes [join_lines]. *)
Theorem typed_urls_round_trip :
  forall urls,
    Forall (fun u => tidy u = true) urls -> manual_urls (join_lines urls) = urls.
Proof.
  intros urls H. destruct urls as [|u us]; [reflexivity|].
  unfold manual_urls.
  destruct (join_lines_edges (u :: us) H ltac:(discriminate)) as (c & r & E & Hc & Hl).
  rewrite E, (strip_fixed c r Hc Hl), <- E, (split_join (u :: us) H ltac:(discriminate)).
  clear E Hc Hl c r.
  induction H as [|x xs Hx Hxs IH]; [reflexivity|].
  destruct (tidy_parts x Hx) as (c & r & -> & Hc & Hl & _).
  cbn [filter]. rewrite (strip_fixed c r Hc Hl). cbn [truthy_text map].
  now rewrite (strip_fixed c r Hc Hl), IH.
Qed.

Lemma typed_urls_round_trip_witness :
  manual_urls (join_lines [lit "https://www.linkedin.com/in/bob";
                            lit "https://www.linkedin.com/in/ann"])
  = [lit "https://www.linkedin.com/in/bob"; lit "https://www.linkedin.com/in/ann"].
Proof.
  apply typed_urls_round_trip. repeat constructor.
Defined.

(** ** More on the calls of one profile *)

Section SentFacts.

Variable env : environment.
Variables api_key dsn account_id : text.

Local Abbreviation process := (process_linkedin_profile env api_key dsn account_id).

(** The job title comes from the most recent position first: where the
    profile answers with an object whose first experience has a title, that
    title is returned whatever the headline says; without experience, a
    headline that is not empty is returned. *)
Theorem experience_title_comes_first user r entries :
  job_title_get env {| get_url := users_url dsn user; get_api_key := api_key;
                       get_account_id := account_id |} = Responds r ->
  response_ok r = true -> body r = JsonValue (PyDict entries) ->
  (forall title, experience_title entries = Some title ->
                 extract_job_title env api_key dsn account_id user = title) /\
  (truthy (dict_get (lit "experience") entries (PyList [])) = false ->
   truthy (dict_get (lit "headline") entries (PyStr [])) = true ->
   extract_job_title env api_key dsn account_id user
   = dict_get (lit "headline") entries (PyStr [])).
Proof.
  intros G O B. unfold extract_job_title, raise_for_status. rewrite G, O, B.
  unfold title_from, experience_title. split.
  - intros title.
    destruct (dict_get (lit "experience") entries (PyList []))
      as [| | | | |[|[| | | | | |job] rest]|]; try discriminate.
    cbn [truthy]. destruct (dict_has (lit "title") job); [|discriminate].
    now intros [= <-].
  - intros E H. now rewrite E, H.
Qed.

(** With personalization on, what is sent is what the result records: the
    message and the invitation go to the provider id of the result and carry
    the templates filled with its username and its job title. *)
Theorem sent_texts_match_the_result linkedin_url mt ct calls r :
  process linkedin_url mt ct true = (calls, Returns r) ->
  forall call, In call calls ->
    match call with
    | ChatsPost request =>
        exists user title,
          username r = Some user /\ job_title r = PyStr title /\
          chat_attendees_ids request = provider_id r /\
          chat_text request = personalize_text mt user title
    | InvitePost request =>
        exists user title,
          username r = Some user /\ job_title r = PyStr title /\
          invite_provider_id request = provider_id r /\
          invite_message request = personalize_text ct user title
    | _ => True
    end.
Proof.
  unfold process_linkedin_profile.
  destruct (extract_linkedin_username (netloc_ok env) linkedin_url) as [user|].
  2:{ intros [= <- <-] call []. }
  destruct (get_user_provider_id env api_key dsn account_id user) as [[pid err]|e];
    [|discriminate].
  destruct (error_set err).
  { intros [= <- <-] call [<-|[]]. exact I. }
  unfold personalize_step, deliver.
  destruct (extract_job_title env api_key dsn account_id user) as [| | | |title| |];
    try discriminate.
  destruct (send_message env api_key dsn account_id pid _) as [[|] m].
  - intros [= <- <-] call [<-|[<-|[<-|[]]]]; try exact I.
    exists user, title. now repeat split.
  - destruct (send_connection_request env api_key dsn account_id pid _) as [[|] c];
      intros [= <- <-] call [<-|[<-|[<-|[<-|[]]]]]; try exact I;
      exists user, title; now repeat split.
Qed.

End SentFacts.

Lemma experience_title_comes_first_witness :
  extract_job_title Scenario.connected (lit "key") (lit "api.unipile.com") (lit "acct")
    (lit "bob")
  = PyStr (lit "Engineer").
Proof.
  exact (proj2 (experience_title_comes_first Scenario.connected (lit "key")
                  (lit "api.unipile.com") (lit "acct") (lit "bob") _ _
                  eq_refl eq_refl eq_refl) eq_refl eq_refl).
Defined.

Lemma sent_texts_match_the_result_witness :
  exists calls r,
    Scenario.run Scenario.connected Scenario.bob true = (calls, Returns r) /\
    exists user title, username r = Some user /\ job_title r = PyStr title.
Proof.
  eexists. eexists. split; [reflexivity|].
  destruct (sent_texts_match_the_result Scenario.connected (lit "key")
              (lit "api.unipile.com") (lit "acct") Scenario.bob
              Scenario.message_template Scenario.connection_template _ _ eq_refl
              (ChatsPost (chat_of (lit "key") (lit "api.unipile.com") (lit "acct")
                            (PyStr (lit "p_88"))
                            (personalize_text Scenario.message_template (lit "bob")
                               (lit "Engineer"))))
              (or_intror (or_intror (or_introl eq_refl))))
    as (user & title & Hu & Ht & _).
  exists user, title. split; [exact Hu | exact Ht].
Defined.

(** ** The properties above on concrete answers *)

Lemma message_sent_iff_accepted_witness :
  snd (send_message Scenario.connected (lit "key") (lit "api.unipile.com") (lit "acct")
         (PyStr (lit "p_88")) (lit "Hi"))
  = lit "Message sent successfully".
Proof.
  apply (message_sent_iff_accepted Scenario.connected (lit "key")
           (lit "api.unipile.com") (lit "acct") (PyStr (lit "p_88")) (lit "Hi")).
  reflexivity.
Defined.

Lemma refused_message_text_witness :
  send_message Scenario.not_connected (lit "key") (lit "api.unipile.com") (lit "acct")
    (PyStr (lit "p_88")) (lit "Hi")
  = (false, lit "Error sending message: Client Error").
Proof.
  exact (refused_message_text Scenario.not_connected (lit "key")
           (lit "api.unipile.com") (lit "acct") (PyStr (lit "p_88")) (lit "Hi")
           _ eq_refl eq_refl).
Defined.

Lemma error_status_reasons_witness :
  get_user_provider_id Scenario.title_refused (lit "key") (lit "api.unipile.com")
    (lit "acct") (lit "bob")
  = Returns (PyStr (lit "p_88"), None) /\
  send_connection_request
    {| netloc_ok := Scenario.accept_all;
       resolver_get := fun _ => Scenario.answer 404 PyNone;
       job_title_get := fun _ => Scenario.answer 404 PyNone;
       chats_post := fun _ => Scenario.answer 403 PyNone;
       invite_post := fun _ => Scenario.answer 422 PyNone |}
    (lit "key") (lit "api.unipile.com") (lit "acct") (PyStr (lit "p_88")) (lit "Hi")
  = (false, lit "Error sending connection request: Client Error").
Proof.
  split; [reflexivity|].
  exact (proj1 (error_status_reasons
                  {| netloc_ok := Scenario.accept_all;
                     resolver_get := fun _ => Scenario.answer 404 PyNone;
                     job_title_get := fun _ => Scenario.answer 404 PyNone;
                     chats_post := fun _ => Scenario.answer 403 PyNone;
                     invite_post := fun _ => Scenario.answer 422 PyNone |}
                  (lit "key") (lit "api.unipile.com") (lit "acct") (lit "bob")
                  (PyStr (lit "p_88")) (lit "Hi")) _ eq_refl eq_refl).
Defined.

Lemma calls_follow_one_order_witness :
  map kind_of (fst (Scenario.run Scenario.not_connected Scenario.bob true))
  = [ToResolver; ToJobTitle; ToChats; ToInvite] /\ true = true.
Proof.
  split; [reflexivity|].
  apply (calls_follow_one_order Scenario.not_connected (lit "key")
           (lit "api.unipile.com") (lit "acct") Scenario.bob
           Scenario.message_template Scenario.connection_template true).
  vm_compute. right. left. reflexivity.
Defined.

Lemma batch_returns_results_in_order_witness :
  exists results,
    process_batch Scenario.not_connected (lit "key") (lit "api.unipile.com") (lit "acct")
      [Scenario.bob; Scenario.ann] Scenario.message_template
      Scenario.connection_template true
    = Returns results /\ length results = 2%nat.
Proof.
  eexists. split.
  - apply (batch_returns_results_in_order Scenario.not_connected (lit "key")
             (lit "api.unipile.com") (lit "acct") Scenario.message_template
             Scenario.connection_template true).
    repeat constructor.
  - reflexivity.
Defined.

Lemma summary_adds_up_witness :
  exists results,
    process_batch Scenario.not_connected (lit "key") (lit "api.unipile.com") (lit "acct")
      [Scenario.bob; UrlText (lit "https://example.com/about")]
      Scenario.message_template Scenario.connection_template true
    = Returns results /\
    (message_count (summarise results) + connection_count (summarise results)
     = success_count (summarise results))%nat /\
    total (summarise results) = 2%nat.
Proof.
  eexists. split; [reflexivity|].
  destruct (summary_adds_up Scenario.not_connected (lit "key") (lit "api.unipile.com")
              (lit "acct") Scenario.message_template Scenario.connection_template true
              [Scenario.bob; UrlText (lit "https://example.com/about")] _ eq_refl)
    as (A & _ & T).
  split; [exact A | exact T].
Defined.

Lemma rate_is_a_fraction_witness :
  exists results figures q,
    on_process_button Scenario.not_connected (lit "key") (lit "api.unipile.com")
      (lit "acct") [Scenario.bob; UrlText (lit "https://example.com/about")]
      Scenario.message_template Scenario.connection_template true
    = Processed results figures (Some q) /\ in_unit q.
Proof.
  eexists. eexists. eexists. split; [reflexivity|].
  destruct (rate_is_a_fraction Scenario.not_connected (lit "key") (lit "api.unipile.com")
              (lit "acct") Scenario.message_template Scenario.connection_template true
              [Scenario.bob; UrlText (lit "https://example.com/about")] _ _ _ eq_refl)
    as (_ & _ & _ & _ & q & Hq & U).
  injection Hq as <-. exact U.
Defined.
